(** * Resume / job-description skill matcher

    A shallow embedding of [src/skill_matcher.py] (class [SkillMatcher]),
    of the document readers of [src/resume_parser.py] and of the endpoint of
    [src/analyze.py], and the properties of their specification.

    Conventions of the embedding.
    - A Python [str] is a [string] whose characters are the code points
      below 256 (the Latin-1 block, which is also what [parse_txt] falls back
      to).  The character tables used by [str.lower] and by the regular
      expression escapes [\w] and [\b] are those of Python 3 on that block.
    - A Python [set] of [str] is a [gset string]; a [dict] is a [gmap].
    - The three uses of the [re] module are interpreted by a small
      backtracking matcher with the priorities of Python's engine
      (leftmost match, greedy repetition).
    - Arithmetic is written once, over an interface [Scalar], and read in
      IEEE-754 binary64 (what the program runs on), in binary64 with the
      distinction Python makes between a [float] and a NumPy scalar (which
      decides how [round] rounds), and in the real numbers (exact
      arithmetic).
    - The service code runs over a file system, a [gmap] from paths to
      contents, and over libraries (pdfminer, docx, tempfile, os.path) that
      are taken as parameters; a call returns a value or raises. *)

From Stdlib Require Import Ascii String List ZArith Reals Floats Lia Lra.
From stdpp Require Import base gmap sets list strings sorting.

(** ** Characters *)

Definition code (c : ascii) : N := N_of_ascii c.

Definition between (lo hi : N) (c : ascii) : bool :=
  ((lo <=? code c) && (code c <=? hi))%N.

Definition is_code (n : N) (c : ascii) : bool := (code c =? n)%N.

(** The class [[A-Z]]. *)
Definition is_AZ (c : ascii) : bool := between 65 90 c.

(** The class [[a-zA-Z]]. *)
Definition is_alpha (c : ascii) : bool := between 97 122 c || is_AZ c.

(** The class [[a-zA-Z\-\.]]. *)
Definition is_word_part (c : ascii) : bool :=
  is_alpha c || is_code 45 c || is_code 46 c.

(** Characters changed by [str.lower]: A-Z, and U+00C0..U+00DE except the
    multiplication sign U+00D7. *)
Definition is_upper (c : ascii) : bool :=
  is_AZ c || (between 192 222 c && negb (is_code 215 c)).

(** [\w] of a [str] pattern: alphanumeric (in the sense of [str.isalnum])
    or underscore. *)
Definition is_word (c : ascii) : bool :=
  is_alpha c || between 48 57 c || is_code 95 c
  || is_code 170 c || between 178 179 c || is_code 181 c
  || between 185 186 c || between 188 190 c
  || (between 192 255 c && negb (is_code 215 c) && negb (is_code 247 c)).

Definition lower_char (c : ascii) : ascii :=
  if is_upper c then ascii_of_N (code c + 32) else c.

(** [s.lower()] *)
Definition lower (s : string) : string :=
  string_of_list_ascii (map lower_char (list_ascii_of_string s)).

(** [sep.join(parts)] *)
Fixpoint join (sep : string) (parts : list string) : string :=
  match parts with
  | [] => ""
  | [p] => p
  | p :: rest => p +:+ sep +:+ join sep rest
  end.

(** [sorted(xs)] on strings: ascending code-point order. *)
Definition sorted (xs : list string) : list string := merge_sort String.le xs.

(** ** Regular expressions *)

Inductive regex : Type :=
| Eps
| Lit (c : ascii)
| Class (p : ascii → bool)
| Plus (p : ascii → bool)
| WordB
| Cat (r1 r2 : regex).

(** [\b]: exactly one of the two neighbours is a word character; the
    outside of the text counts as a non-word character. *)
Definition word_before (prev : option ascii) : bool :=
  match prev with Some c => is_word c | None => false end.

Definition word_here (s : list ascii) : bool :=
  match s with c :: _ => is_word c | [] => false end.

Definition at_boundary (prev : option ascii) (s : list ascii) : bool :=
  xorb (word_before prev) (word_here s).

(** The matcher is written with a continuation [k] for the rest of the
    pattern; it receives the character just consumed and the remaining
    text.  A result is the text left after the whole match. *)
Definition cont : Type := option ascii → list ascii → option (list ascii).

(** Greedy [p*]: try the longest run first, give characters back one at a
    time while the continuation fails. *)
Fixpoint greedy (p : ascii → bool) (k : cont) (prev : option ascii)
    (s : list ascii) : option (list ascii) :=
  match s with
  | c :: s' =>
      if p c then
        match greedy p k (Some c) s' with
        | Some r => Some r
        | None => k prev s
        end
      else k prev s
  | [] => k prev s
  end.

Fixpoint rmatch (r : regex) (k : cont) (prev : option ascii)
    (s : list ascii) : option (list ascii) :=
  match r with
  | Eps => k prev s
  | Lit c =>
      match s with
      | c' :: s' => if bool_decide (c = c') then k (Some c') s' else None
      | [] => None
      end
  | Class p =>
      match s with
      | c' :: s' => if p c' then k (Some c') s' else None
      | [] => None
      end
  | Plus p =>
      match s with
      | c' :: s' => if p c' then greedy p k (Some c') s' else None
      | [] => None
      end
  | WordB => if at_boundary prev s then k prev s else None
  | Cat r1 r2 => rmatch r1 (rmatch r2 k) prev s
  end.

(** The text matched at the current position, if any. *)
Definition match_at (r : regex) (prev : option ascii) (s : list ascii)
  : option (list ascii) :=
  match rmatch r (λ _ rest, Some rest) prev s with
  | Some rest => Some (take (length s - length rest) s)
  | None => None
  end.

Fixpoint search_from (r : regex) (prev : option ascii) (s : list ascii) : bool :=
  match match_at r prev s with
  | Some _ => true
  | None =>
      match s with
      | [] => false
      | c :: s' => search_from r (Some c) s'
      end
  end.

(** [re.search(pattern, text)], read as a truth value. *)
Definition re_search (pattern : regex) (text : string) : bool :=
  search_from pattern None (list_ascii_of_string text).

(** Successive non-overlapping matches, scanning left to right; [skip]
    counts the characters of the previous match still to step over. *)
Fixpoint finditer_from (r : regex) (skip : nat) (prev : option ascii)
    (s : list ascii) : list (list ascii) :=
  match s with
  | [] =>
      match match_at r prev [] with
      | Some m => [m]
      | None => []
      end
  | c :: s' =>
      match skip with
      | S n => finditer_from r n (Some c) s'
      | O =>
          match match_at r prev s with
          | Some m => m :: finditer_from r (length m - 1) (Some c) s'
          | None => finditer_from r 0 (Some c) s'
          end
      end
  end.

(** [[m.group() for m in re.finditer(pattern, text)]], which is also
    [re.findall(pattern, text)] for a pattern without groups. *)
Definition re_findall (pattern : regex) (text : string) : list string :=
  string_of_list_ascii <$> finditer_from pattern 0 None (list_ascii_of_string text).

(** [re.escape(s)]: the pattern matching [s] literally. *)
Definition re_escape (s : string) : regex :=
  foldr (λ c r, Cat (Lit c) r) Eps (list_ascii_of_string s).

(** [r'\b' + p + r'\b'] *)
Definition whole_word (p : regex) : regex := Cat WordB (Cat p WordB).

(** [r'\b[A-Z][A-Z]+\b'] *)
Definition abbrev_pattern : regex := whole_word (Cat (Class is_AZ) (Plus is_AZ)).

(** [r'\b[a-zA-Z][a-zA-Z\-\.]+\b'] *)
Definition words_pattern : regex :=
  whole_word (Cat (Class is_alpha) (Plus is_word_part)).

(** ** The vocabulary ([SkillMatcher.__init__]) *)

Definition common_tech_skills : gset string := list_to_set [
  "python"; "java"; "javascript"; "typescript"; "c++"; "c#"; "ruby"; "php"; "swift";
  "kotlin"; "Golang"; "Go"; "rust"; "html"; "css"; "react"; "angular"; "vue"; "node.js"; "express";
  "django"; "flask"; "spring"; "hibernate"; "docker"; "kubernetes"; "aws"; "azure";
  "gcp"; "terraform"; "jenkins"; "github actions"; "circleci"; "travis"; "git"; "svn";
  "sql"; "mysql"; "postgresql"; "mongodb"; "redis"; "elasticsearch"; "kafka"; "rabbitmq";
  "tensorflow"; "pytorch"; "scikit-learn"; "pandas"; "numpy"; "matplotlib"; "tableau";
  "power bi"; "excel"; "jira"; "confluence"; "agile"; "scrum"; "kanban"; "rest api";
  "graphql"; "oauth"; "jwt"; "microservices"; "devops"; "ci/cd"; "machine learning";
  "deep learning"; "nlp"; "data analysis"; "data science"; "big data"; "hadoop"; "spark"
].

Definition skill_categories : gmap string (gset string) := list_to_map [
  ("programming_languages", list_to_set [
     "python"; "java"; "c++"; "c#"; "javascript"; "typescript"; "ruby"; "go"; "rust";
     "php"; "scala"; "kotlin"; "swift"; "r"; "perl"; "bash"; "powershell"; "sql" ]);
  ("frontend", list_to_set [
     "html"; "css"; "javascript"; "react"; "angular"; "vue"; "redux"; "bootstrap";
     "tailwind"; "jquery"; "webpack"; "sass"; "less"; "typescript"; "next.js"; "gatsby" ]);
  ("backend", list_to_set [
     "node.js"; "express"; "django"; "flask"; "spring"; "laravel"; "ruby on rails";
     "asp.net"; "fastapi"; "graphql"; "rest api"; "websockets"; "microservices" ]);
  ("databases", list_to_set [
     "sql"; "mysql"; "postgresql"; "mongodb"; "sqlite"; "oracle"; "dynamodb"; "redis";
     "cassandra"; "elasticsearch"; "firebase"; "mariadb"; "neo4j"; "couchbase" ]);
  ("devops", list_to_set [
     "docker"; "kubernetes"; "jenkins"; "gitlab ci"; "github actions"; "terraform";
     "ansible"; "puppet"; "chef"; "aws"; "azure"; "gcp"; "ci/cd"; "prometheus"; "grafana" ]);
  ("data_science", list_to_set [
     "python"; "r"; "pandas"; "numpy"; "matplotlib"; "scikit-learn"; "tensorflow";
     "pytorch"; "keras"; "jupyter"; "tableau"; "power bi"; "machine learning";
     "deep learning"; "statistics"; "data visualization"; "big data"; "data mining" ]);
  ("soft_skills", list_to_set [
     "leadership"; "communication"; "teamwork"; "problem solving"; "critical thinking";
     "time management"; "project management"; "creativity"; "adaptability"; "collaboration" ])
].

(** The flattened set: every category, then the common skills. *)
Definition all_skills : gset string :=
  foldl (λ acc category, acc ∪ category) ∅ (snd <$> map_to_list skill_categories)
  ∪ common_tech_skills.

(** ** [SkillMatcher.extract_skills] *)

(** [[' '.join(words[i:i+n]) for i in range(len(words) - (n - 1))]] *)
Definition ngrams (n : nat) (words : list string) : list string :=
  (λ i, join " " (take n (drop i words))) <$> seq 0 (length words - (n - 1)).

Definition add_known_skill (text_lower : string) (skills : gset string)
    (skill : string) : gset string :=
  if re_search (whole_word (re_escape skill)) text_lower
  then skills ∪ {[ skill ]} else skills.

Definition add_abbreviation (skills : gset string) (m : string) : gset string :=
  let skill_abbr := lower m in
  if (2 <=? String.length skill_abbr)%nat then skills ∪ {[ skill_abbr ]} else skills.

Definition add_phrase (skills : gset string) (phrase : string) : gset string :=
  if bool_decide (phrase ∈ all_skills) then skills ∪ {[ phrase ]} else skills.

(** The argument is [None] when the caller passes Python's [None]. *)
Definition extract_skills (text : option string) : gset string :=
  match text with
  | None | Some "" => ∅
  | Some text =>
      let text_lower := lower text in
      let skills := foldl (add_known_skill text_lower) ∅ (elements all_skills) in
      let skills := foldl add_abbreviation skills (re_findall abbrev_pattern text) in
      let words := re_findall words_pattern text_lower in
      let bigrams := ngrams 2 words in
      let trigrams := ngrams 3 words in
      foldl add_phrase skills (bigrams ++ trigrams)
  end.

(** ** Arithmetic interface *)

(** The operations of Python floats the program uses.  [s_of_nat] is the
    conversion of an [int], [s_half] the literal [0.5]. *)
Class Scalar (A : Type) : Type := {
  s_of_nat : nat → A;
  s_half : A;
  s_add : A → A → A;
  s_mul : A → A → A;
  s_div : A → A → A;
  s_sqrt : A → A;
  s_is_zero : A → bool
}.

(** [round(x, 2)] *)
Class Round2 (A : Type) : Type := round2 : A → A.

(** IEEE-754 binary64, the arithmetic the program runs on. *)
Definition float_of_nat (n : nat) : float :=
  PrimFloat.of_uint63 (Uint63.of_Z (Z.of_nat n)).

#[export] Instance float_scalar : Scalar float := {|
  s_of_nat := float_of_nat;
  s_half := 0x1p-1%float;
  s_add := PrimFloat.add;
  s_mul := PrimFloat.mul;
  s_div := PrimFloat.div;
  s_sqrt := PrimFloat.sqrt;
  s_is_zero := λ x, PrimFloat.eqb x 0%float
|}.

(** Exact arithmetic on the reals. *)
#[export] Instance real_scalar : Scalar R := {|
  s_of_nat := INR;
  s_half := (1 / 2)%R;
  s_add := Rplus;
  s_mul := Rmult;
  s_div := Rdiv;
  s_sqrt := R_sqrt.sqrt;
  s_is_zero := λ x, if Req_dec_T x 0%R then true else false
|}.

(** Rounding to the nearest integer, ties to the even one. *)
Definition round_half_even (x : R) : Z :=
  let n := Int_part x in
  let d := (x - IZR n)%R in
  if Rlt_dec d (1 / 2) then n
  else if Rlt_dec (1 / 2) d then (n + 1)%Z
  else if Z.even n then n else (n + 1)%Z.

#[export] Instance real_round2 : Round2 R :=
  λ x, (IZR (round_half_even (x * 100)) / 100)%R.

(** ** Python numbers on binary64 *)

(** A number of the running program: its binary64 value, and whether it is
    a NumPy scalar ([numpy.float64]) rather than a Python [float].  Values
    computed inside scikit-learn are NumPy scalars, and an operation with a
    NumPy scalar gives a NumPy scalar. *)
Record pynum : Type := { value : float; is_numpy : bool }.

Definition pynum_op (f : float → float → float) (x y : pynum) : pynum :=
  {| value := f (value x) (value y); is_numpy := is_numpy x || is_numpy y |}.

#[export] Instance pynum_scalar : Scalar pynum := {|
  s_of_nat := λ n, {| value := float_of_nat n; is_numpy := false |};
  s_half := {| value := 0x1p-1%float; is_numpy := false |};
  s_add := pynum_op PrimFloat.add;
  s_mul := pynum_op PrimFloat.mul;
  s_div := pynum_op PrimFloat.div;
  s_sqrt := λ x, {| value := PrimFloat.sqrt (value x); is_numpy := true |};
  s_is_zero := λ x, PrimFloat.eqb (value x) 0%float
|}.

(** [numpy.rint]: the nearest integer, ties to even. *)
Definition rint_nonneg (y : float) : float :=
  if PrimFloat.ltb y 0x1p52%float
  then PrimFloat.sub (PrimFloat.add y 0x1p52%float) 0x1p52%float
  else y.

Definition rint (y : float) : float :=
  if PrimFloat.ltb y 0%float
  then PrimFloat.opp (rint_nonneg (PrimFloat.opp y))
  else rint_nonneg y.

(** [round(x, 2)] of a NumPy scalar: multiply by 100, [rint], divide. *)
Definition numpy_round2 (x : float) : float :=
  PrimFloat.div (rint (PrimFloat.mul x 100%float)) 100%float.

(** The integer nearest to [m * 2^e], ties to even. *)
Definition nearest_even (m e : Z) : Z :=
  if (0 <=? e)%Z then (m * 2 ^ e)%Z
  else
    let d := (2 ^ (- e))%Z in
    let q := (m / d)%Z in
    let r := (m mod d)%Z in
    if (2 * r <? d)%Z then q
    else if (d <? 2 * r)%Z then (q + 1)%Z
    else if Z.even q then q else (q + 1)%Z.

(** [round(x, 2)] of a Python [float]: the decimal expansion of the exact
    value of [x], correctly rounded to two places, read back as the nearest
    binary64 number. *)
Definition python_round2 (x : float) : float :=
  match Prim2SF x with
  | S754_finite s m e =>
      if (0 <=? e)%Z then x
      else
        let n := nearest_even (Z.pos m * 100) e in
        let r := PrimFloat.div (PrimFloat.of_uint63 (Uint63.of_Z n)) 100%float in
        if s then PrimFloat.opp r else r
  | _ => x
  end.

#[export] Instance pynum_round2 : Round2 pynum :=
  λ x, if is_numpy x
       then {| value := numpy_round2 (value x); is_numpy := true |}
       else {| value := python_round2 (value x); is_numpy := false |}.

(** ** [SkillMatcher.calculate_similarity] *)

(** [\b\w\w+\b], the default [token_pattern] of [CountVectorizer]. *)
Definition token_pattern : regex := whole_word (Cat (Class is_word) (Plus is_word)).

Definition count_tokens (vocabulary tokens : list string) : list nat :=
  (λ w, length (filter (λ t, t = w) tokens)) <$> vocabulary.

(** [CountVectorizer().fit_transform(documents)]: one row of term counts
    per document, columns in sorted vocabulary order.  [None] stands for
    the [ValueError] raised on an empty vocabulary. *)
Definition fit_transform (documents : list string) : option (list (list nat)) :=
  let analyzed := (λ doc, re_findall token_pattern (lower doc)) <$> documents in
  let vocabulary := sorted (elements (list_to_set (C:=gset string) (concat analyzed))) in
  match vocabulary with
  | [] => None
  | _ => Some (count_tokens vocabulary <$> analyzed)
  end.

Section Similarity.
Context {A : Type} `{Scalar A}.

Definition sum_squares (row : list A) : A :=
  foldl (λ acc x, s_add acc (s_mul x x)) (s_of_nat 0) row.

(** L2 row normalisation; an all-zero row is left as it is. *)
Definition normalize (row : list A) : list A :=
  let sum_ := sum_squares row in
  if s_is_zero sum_ then row
  else (λ x, s_div x (s_sqrt sum_)) <$> row.

Definition dot (u v : list A) : A :=
  foldl (λ acc xy, s_add acc (s_mul xy.1 xy.2)) (s_of_nat 0) (zip u v).

(** [cosine_similarity(X)]: the matrix of dot products of the
    normalised rows. *)
Definition cosine_similarity (X : list (list nat)) : list (list A) :=
  let Xn := (λ row, normalize (s_of_nat <$> row)) <$> X in
  (λ u, dot u <$> Xn) <$> Xn.

Definition calculate_similarity (resume_text job_text : string) : A :=
  if bool_decide (resume_text = "") || bool_decide (job_text = "")
  then s_of_nat 0
  else
    let documents := [lower resume_text; lower job_text] in
    match fit_transform documents with
    | Some X =>
        match cosine_similarity X !! 0%nat ≫= (.!! 1%nat) with
        | Some similarity => similarity
        | None => s_of_nat 0
        end
    | None => s_of_nat 0
    end.
End Similarity.

(** ** [SkillMatcher.analyze] *)

Definition find_matching_skills (resume_skills job_skills : gset string)
  : gset string := resume_skills ∩ job_skills.

Definition find_missing_skills (resume_skills job_skills matching_skills : gset string)
  : gset string := job_skills ∖ matching_skills.

Record skill_counts : Type := {
  resume : nat;
  job_description : nat;
  matching : nat;
  missing : nat
}.

Record analysis_result (A : Type) : Type := {
  match_percentage : A;
  resume_skills : list string;
  job_required_skills : list string;
  matching_skills : list string;
  missing_skills : list string;
  skill_count : skill_counts
}.
Arguments match_percentage {A} _.
Arguments resume_skills {A} _.
Arguments job_required_skills {A} _.
Arguments matching_skills {A} _.
Arguments missing_skills {A} _.
Arguments skill_count {A} _.

Section Analyze.
Context {A : Type} `{Scalar A} `{Round2 A}.

Definition coverage_of (matching_skills job_skills : gset string) : A :=
  if bool_decide (job_skills ≠ ∅)
  then s_div (s_of_nat (size matching_skills)) (s_of_nat (size job_skills))
  else s_of_nat 0.

Definition analyze (resume_text job_desc_text : string) : analysis_result A :=
  let resume_skills := extract_skills (Some resume_text) in
  let job_skills := extract_skills (Some job_desc_text) in
  let matching_skills := find_matching_skills resume_skills job_skills in
  let missing_skills := find_missing_skills resume_skills job_skills matching_skills in
  let text_similarity := calculate_similarity resume_text job_desc_text in
  let coverage := coverage_of matching_skills job_skills in
  let match_percentage :=
    s_mul (s_add (s_mul text_similarity s_half) (s_mul coverage s_half))
          (s_of_nat 100) in
  {| match_percentage := round2 match_percentage;
     resume_skills := sorted (elements resume_skills);
     job_required_skills := sorted (elements job_skills);
     matching_skills := sorted (elements matching_skills);
     missing_skills := sorted (elements missing_skills);
     skill_count := {| resume := size resume_skills;
                       job_description := size job_skills;
                       matching := size matching_skills;
                       missing := size missing_skills |} |}.
End Analyze.

(** ** The document readers ([src/resume_parser.py]) *)

(** Exceptions are part of the result of a call: a call returns a value or
    raises.  The classes the handlers tell apart are named; everything else
    is [OtherError]. *)
Inductive exc : Type :=
| PDFSyntaxError
| UnicodeDecodeError
| FileNotFoundError
| OtherError (name : string).

Inductive outcome (T : Type) : Type :=
| Return (v : T)
| Raise (e : exc).
Arguments Return {T} _.
Arguments Raise {T} _.

(** The file system: the content of each existing path. *)
Abbreviation files := (gmap string string).

(** Opening a path for reading. *)
Definition open_read (fs : files) (path : string) : outcome string :=
  match fs !! path with
  | Some data => Return data
  | None => Raise FileNotFoundError
  end.

Section Readers.
(** The libraries behind the readers, as functions of the file content:
    [os.path.splitext], pdfminer's [extract_text], the paragraph texts of a
    [docx.Document], and the decoding done by [read()] on a file opened in
    text mode with the given encoding. *)
Context (splitext : string → string * string)
        (pdf_extract : string → outcome string)
        (docx_paragraphs : string → outcome (list string))
        (read_utf8 : string → outcome string)
        (read_latin1 : string → outcome string).

Definition parse_pdf (fs : files) (file_path : string) : outcome string :=
  match open_read fs file_path with
  | Raise e => Raise e
  | Return data =>
      match pdf_extract data with
      | Return text => Return text
      | Raise PDFSyntaxError => Return ""
      | Raise e => Raise e
      end
  end.

Definition parse_docx (fs : files) (file_path : string) : outcome string :=
  match open_read fs file_path with
  | Raise _ => Return ""
  | Return data =>
      match docx_paragraphs data with
      | Return full_text => Return (join (String "010" "") full_text)
      | Raise _ => Return ""
      end
  end.

Definition parse_txt (fs : files) (file_path : string) : outcome string :=
  match open_read fs file_path with
  | Raise _ => Return ""
  | Return data =>
      match read_utf8 data with
      | Return text => Return text
      | Raise UnicodeDecodeError =>
          match open_read fs file_path with
          | Raise _ => Return ""
          | Return data' =>
              match read_latin1 data' with
              | Return text => Return text
              | Raise _ => Return ""
              end
          end
      | Raise _ => Return ""
      end
  end.

Definition parse_document (fs : files) (file_path : string) : outcome string :=
  let file_extension := lower (splitext file_path).2 in
  let body :=
    if bool_decide (file_extension = ".pdf") then parse_pdf fs file_path
    else if bool_decide (file_extension = ".docx") then parse_docx fs file_path
    else if bool_decide (file_extension = ".txt") then parse_txt fs file_path
    else Return "" in
  match body with
  | Return text => Return text
  | Raise _ => Return ""
  end.
End Readers.

(** ** The endpoint ([src/analyze.py]) *)

Record upload : Type := { filename : string; content : string }.

Inductive response (A : Type) : Type :=
| Json (status : nat) (body : analysis_result A)
| Error (status : nat) (message : string).
Arguments Json {A} _ _.
Arguments Error {A} _ _.

(** [os.unlink(path)] *)
Definition unlink (fs : files) (path : string) : outcome files :=
  match fs !! path with
  | Some _ => Return (delete path fs)
  | None => Raise FileNotFoundError
  end.

(** [if os.path.exists(path): os.unlink(path)] *)
Definition unlink_if_exists (fs : files) (path : string) : files :=
  match fs !! path with
  | Some _ => delete path fs
  | None => fs
  end.

Section Endpoint.
Context {A : Type} `{Scalar A} `{Round2 A}.
(** [parse] is [parse_document]; [mkstemp fs suffix] is the name chosen by
    [tempfile.NamedTemporaryFile(delete=False, suffix=suffix)]; [str_exc]
    is [str(e)]. *)
Context (splitext : string → string * string)
        (parse : files → string → outcome string)
        (mkstemp : files → string → string)
        (str_exc : exc → string).

(** The body of the [try] block: its result or the exception it raises,
    and the file system it leaves. *)
Definition analyze_try (fs : files) (resume_path job_desc_path : string)
  : outcome (response A) * files :=
  match parse fs resume_path with
  | Raise e => (Raise e, fs)
  | Return resume_text =>
      match parse fs job_desc_path with
      | Raise e => (Raise e, fs)
      | Return job_desc_text =>
          if bool_decide (resume_text = "") || bool_decide (job_desc_text = "")
          then (Return (Error 400 "Failed to parse one or both documents"), fs)
          else
            let results := analyze (A:=A) resume_text job_desc_text in
            match unlink fs resume_path with
            | Raise e => (Raise e, fs)
            | Return fs1 =>
                match unlink fs1 job_desc_path with
                | Raise e => (Raise e, fs1)
                | Return fs2 => (Return (Json 200 results), fs2)
                end
            end
      end
  end.

Definition analyze_endpoint (request_files : gmap string upload) (fs : files)
  : response A * files :=
  match request_files !! "resume", request_files !! "job_description" with
  | Some resume_file, Some job_desc_file =>
      if bool_decide (filename resume_file = "")
         || bool_decide (filename job_desc_file = "")
      then (Error 400 "No selected file", fs)
      else
        let resume_ext := (splitext (filename resume_file)).2 in
        let job_desc_ext := (splitext (filename job_desc_file)).2 in
        let resume_path := mkstemp fs resume_ext in
        let fs := <[resume_path := content resume_file]> fs in
        let job_desc_path := mkstemp fs job_desc_ext in
        let fs := <[job_desc_path := content job_desc_file]> fs in
        match analyze_try fs resume_path job_desc_path with
        | (Return r, fs) => (r, fs)
        | (Raise e, fs) =>
            let fs := unlink_if_exists fs resume_path in
            let fs := unlink_if_exists fs job_desc_path in
            (Error 500 (str_exc e), fs)
        end
  | _, _ => (Error 400 "Both resume and job description files are required", fs)
  end.
End Endpoint.

(** ** Notions used in the statements *)

Abbreviation chars := list_ascii_of_string.
Abbreviation of_chars := string_of_list_ascii.

(** A string without a character that [str.lower] would change. *)
Definition no_upper (s : string) : bool :=
  forallb (λ c, negb (is_upper c)) (chars s).

(** The character in front of the position reached after reading [w]. *)
Definition prev_after (prev : option ascii) (w : list ascii) : option ascii :=
  match last w with Some c => Some c | None => prev end.

(** The words a pattern can match, given the character before them and the
    text after them (both matter to [\b] only). *)
Fixpoint lang (r : regex) (prev : option ascii) (w rest : list ascii) : Prop :=
  match r with
  | Eps => w = []
  | Lit c => w = [c]
  | Class p => ∃ c, w = [c] ∧ p c = true
  | Plus p => w ≠ [] ∧ Forall (λ c, p c = true) w
  | WordB => w = [] ∧ at_boundary prev rest = true
  | Cat r1 r2 =>
      ∃ w1 w2, w = w1 ++ w2 ∧ lang r1 prev w1 (w2 ++ rest)
               ∧ lang r2 (prev_after prev w1) w2 rest
  end.

(** Between two matches the scan is inside a word. *)
Definition inside_match (skip : nat) (prev : option ascii) (s : list ascii) : Prop :=
  skip = 0 ∨ (word_before prev = true ∧ Forall (λ c, is_word c = true) (take skip s)).

(** The three passes, as a description of the result set. *)
Definition found_exact (text s : string) : Prop :=
  s ∈ all_skills ∧ re_search (whole_word (re_escape s)) (lower text) = true.

Definition found_abbrev (text s : string) : Prop :=
  ∃ m, m ∈ re_findall abbrev_pattern text ∧ s = lower m
       ∧ 2 ≤ String.length (lower m).

Definition found_phrase (text s : string) : Prop :=
  let words := re_findall words_pattern (lower text) in
  s ∈ ngrams 2 words ++ ngrams 3 words ∧ s ∈ all_skills.

(** A whole-word run of two or more capitals: [run] stands between [pre]
    and [post], it is made of letters A-Z only, and neither the character
    before it nor the one after it is a word character. *)
Definition is_upper_run (pre run post : string) : bool :=
  (2 <=? String.length run)%nat && forallb is_AZ (chars run)
  && negb (word_before (last (chars pre))) && negb (word_here (chars post)).

(** [w] stands between [pre] and [post] with a word boundary on each
    side. *)
Definition is_whole_word_at (pre w post : string) : bool :=
  at_boundary (last (chars pre)) (chars w ++ chars post)
  && at_boundary (prev_after (last (chars pre)) (chars w)) (chars post).

(** ** Patterns as text, and calls on any Python value *)























(** A whole-word run of two or more uppercase letters, the accented
    capitals included. *)
Definition is_capital_run (pre run post : string) : bool :=
  (2 <=? String.length run)%nat && forallb is_upper (chars run)
  && negb (word_before (last (chars pre))) && negb (word_here (chars post)).

(** * Properties *)

(** ** Characters and strings *)

#[global] Opaque all_skills.
#[global] Arguments is_AZ : simpl never.
#[global] Arguments is_alpha : simpl never.
#[global] Arguments is_word_part : simpl never.
#[global] Arguments is_upper : simpl never.
#[global] Arguments is_word : simpl never.
#[global] Arguments lower_char : simpl never.

Ltac by_cases_on_char c :=
  destruct c as [[] [] [] [] [] [] [] []]; vm_compute; try reflexivity; try discriminate; auto.

Lemma lower_char_not_upper c : is_upper (lower_char c) = false.
Proof. by_cases_on_char c. Qed.

Lemma lower_char_idemp c : lower_char (lower_char c) = lower_char c.
Proof. by_cases_on_char c. Qed.

Lemma is_AZ_is_word c : is_AZ c = true → is_word c = true.
Proof. by_cases_on_char c. Qed.

Lemma is_AZ_is_upper c : is_AZ c = true → is_upper c = true.
Proof. by_cases_on_char c. Qed.

Lemma chars_of_chars l : chars (of_chars l) = l.
Proof. apply list_ascii_of_string_of_list_ascii. Qed.

Lemma of_chars_chars s : of_chars (chars s) = s.
Proof. apply string_of_list_ascii_of_string. Qed.

Lemma chars_app s1 s2 : chars (s1 +:+ s2) = chars s1 ++ chars s2.
Proof. induction s1 as [|c s1 IH]; simpl; [done | by rewrite IH]. Qed.

Lemma of_chars_app l1 l2 : of_chars (l1 ++ l2) = of_chars l1 +:+ of_chars l2.
Proof. induction l1 as [|c l1 IH]; simpl; [done | by rewrite IH]. Qed.

Lemma chars_length s : length (chars s) = String.length s.
Proof. induction s as [|c s IH]; simpl; [done | by rewrite IH]. Qed.

Lemma chars_lower s : chars (lower s) = map lower_char (chars s).
Proof. unfold lower. apply chars_of_chars. Qed.

Lemma lower_length s : String.length (lower s) = String.length s.
Proof. by rewrite <- !chars_length, chars_lower, length_map. Qed.

Lemma lower_idemp s : lower (lower s) = lower s.
Proof.
  unfold lower at 1. rewrite chars_lower, map_map.
  unfold lower. f_equal. apply map_ext. intros c. apply lower_char_idemp.
Qed.

Lemma no_upper_Forall s :
  no_upper s = true ↔ Forall (λ c, is_upper c = false) (chars s).
Proof.
  unfold no_upper. rewrite forallb_forall, Forall_forall.
  split; intros Hs c Hc.
  - apply list_elem_of_In, Hs in Hc. by destruct (is_upper c).
  - apply list_elem_of_In, Hs in Hc. by rewrite Hc.
Qed.

Lemma no_upper_lower s : no_upper (lower s) = true.
Proof.
  apply no_upper_Forall. rewrite chars_lower.
  apply Forall_forall. intros c [c' [-> _]]%list_elem_of_fmap.
  apply lower_char_not_upper.
Qed.

Lemma no_upper_fixed s : no_upper s = true → lower s = s.
Proof.
  rewrite no_upper_Forall. intros Hs. unfold lower.
  rewrite <- (of_chars_chars s) at 2. f_equal.
  induction Hs as [|c l Hc _ IH]; simpl; [done|].
  rewrite IH. unfold lower_char. by rewrite Hc.
Qed.

Lemma no_upper_app s1 s2 :
  no_upper s1 = true → no_upper s2 = true → no_upper (s1 +:+ s2) = true.
Proof.
  rewrite !no_upper_Forall, chars_app. intros. by apply Forall_app.
Qed.

Lemma no_upper_join parts :
  Forall (λ p, no_upper p = true) parts → no_upper (join " " parts) = true.
Proof.
  induction 1 as [|p rest Hp Hrest IH]; [done|].
  destruct rest as [|q rest]; [done|].
  change (join " " (p :: q :: rest)) with (p +:+ " " +:+ join " " (q :: rest)).
  apply no_upper_app; [done|]. by apply no_upper_app.
Qed.

(** ** The matcher *)

Lemma prev_after_nil prev : prev_after prev [] = prev.
Proof. done. Qed.

Lemma prev_after_cons prev c w : prev_after prev (c :: w) = prev_after (Some c) w.
Proof.
  unfold prev_after. destruct w as [|d w]; [done|].
  rewrite last_cons. by destruct (last (d :: w)).
Qed.

Lemma prev_after_app prev w1 w2 :
  prev_after prev (w1 ++ w2) = prev_after (prev_after prev w1) w2.
Proof.
  revert prev. induction w1 as [|c w1 IH]; intros prev; [done|].
  simpl. by rewrite !prev_after_cons, IH.
Qed.

Lemma greedy_sound p k prev s res :
  greedy p k prev s = Some res →
  ∃ w s', s = w ++ s' ∧ Forall (λ c, p c = true) w
          ∧ k (prev_after prev w) s' = Some res.
Proof.
  revert prev. induction s as [|c s IH]; intros prev; simpl.
  - intros Hk. by exists [], [].
  - destruct (p c) eqn:Hc; [|intros Hk; by exists [], (c :: s)].
    destruct (greedy p k (Some c) s) as [r|] eqn:Hg.
    + intros [= ->]. destruct (IH _ Hg) as (w & s' & -> & Hw & Hk).
      exists (c :: w), s'. rewrite prev_after_cons. by repeat split; [constructor|].
    + intros Hk. by exists [], (c :: s).
Qed.

Lemma rmatch_sound r k prev s res :
  rmatch r k prev s = Some res →
  ∃ w s', s = w ++ s' ∧ lang r prev w s' ∧ k (prev_after prev w) s' = Some res.
Proof.
  revert k prev s. induction r as [|c|p|p| |r1 IH1 r2 IH2]; intros k prev s; simpl.
  - intros Hk. by exists [], s.
  - destruct s as [|c' s]; [done|]. case_bool_decide as Hc; [|done]. subst c'.
    intros Hk. by exists [c], s.
  - destruct s as [|c' s]; [done|]. destruct (p c') eqn:Hc; [|done].
    intros Hk. exists [c'], s. repeat split; [|done]. by exists c'.
  - destruct s as [|c' s]; [done|]. destruct (p c') eqn:Hc; [|done].
    intros (w & s' & -> & Hw & Hk)%greedy_sound.
    exists (c' :: w), s'. rewrite prev_after_cons.
    repeat split; [done | by constructor | done].
  - destruct (at_boundary prev s) eqn:Hb; [|done].
    intros Hk. by exists [], s.
  - intros (w1 & s1 & -> & H1 & (w2 & s2 & -> & H2 & Hk)%IH2)%IH1.
    exists (w1 ++ w2), s2. rewrite prev_after_app, <- app_assoc.
    repeat split; [|done]. by exists w1, w2.
Qed.

Lemma match_at_sound r prev s m :
  match_at r prev s = Some m → ∃ rest, s = m ++ rest ∧ lang r prev m rest.
Proof.
  unfold match_at.
  destruct (rmatch r _ prev s) as [rest|] eqn:Hr; [|done].
  apply rmatch_sound in Hr as (w & s' & -> & Hw & [= ->]).
  rewrite length_app, Nat.add_sub, take_app_length.
  intros [= <-]. by exists rest.
Qed.

Lemma search_from_sound r prev s :
  search_from r prev s = true →
  ∃ pre m rest, s = pre ++ m ++ rest ∧ lang r (prev_after prev pre) m rest.
Proof.
  revert prev. induction s as [|c s IH]; intros prev; simpl.
  - destruct (match_at r prev []) as [m|] eqn:Hm; [|done].
    apply match_at_sound in Hm as (rest & ? & ?). intros _. by exists [], m, rest.
  - destruct (match_at r prev (c :: s)) as [m|] eqn:Hm.
    + apply match_at_sound in Hm as (rest & ? & ?). intros _. by exists [], m, rest.
    + intros (pre & m & rest & -> & Hl)%IH.
      exists (c :: pre), m, rest. by rewrite prev_after_cons.
Qed.

Lemma finditer_from_sound r skip prev s m :
  m ∈ finditer_from r skip prev s →
  ∃ pre rest, s = pre ++ m ++ rest ∧ lang r (prev_after prev pre) m rest.
Proof.
  revert skip prev. induction s as [|c s IH]; intros skip prev; simpl.
  - destruct (match_at r prev []) as [m'|] eqn:Hm; [|by intros ?%elem_of_nil].
    intros ->%list_elem_of_singleton.
    apply match_at_sound in Hm as (rest & ? & ?). by exists [], rest.
  - assert (Hrec : ∀ n, m ∈ finditer_from r n (Some c) s →
        ∃ pre rest, c :: s = pre ++ m ++ rest ∧ lang r (prev_after prev pre) m rest).
    { intros n (pre & rest & -> & Hl)%IH.
      exists (c :: pre), rest. by rewrite prev_after_cons. }
    destruct skip as [|n]; [|by apply Hrec].
    destruct (match_at r prev (c :: s)) as [m'|] eqn:Hm; [|by apply Hrec].
    intros [->|Hin]%elem_of_cons; [|by eapply Hrec].
    apply match_at_sound in Hm as (rest & ? & ?). by exists [], rest.
Qed.

(** *** The patterns of [extract_skills] *)

Lemma lang_literal l prev w rest :
  lang (foldr (λ c r, Cat (Lit c) r) Eps l) prev w rest → w = l.
Proof.
  revert prev w. induction l as [|c l IH]; intros prev w; simpl; [done|].
  intros (w1 & w2 & -> & -> & Hw2). apply IH in Hw2. by subst.
Qed.

Lemma lang_whole_word p prev w rest :
  lang (whole_word p) prev w rest →
  at_boundary prev (w ++ rest) = true ∧ lang p prev w rest
  ∧ at_boundary (prev_after prev w) rest = true.
Proof.
  intros (w1 & w2 & -> & [-> Hb1] & (w3 & w4 & -> & Hp & [-> Hb2])).
  simpl in *. rewrite app_nil_r in *. by rewrite prev_after_nil in *.
Qed.

Lemma lang_run p1 p2 prev w rest :
  lang (Cat (Class p1) (Plus p2)) prev w rest →
  ∃ c w', w = c :: w' ∧ p1 c = true ∧ w' ≠ [] ∧ Forall (λ c, p2 c = true) w'.
Proof.
  intros (w1 & w2 & -> & (c & -> & Hc) & Hne & Hw2). by exists c, w2.
Qed.

Lemma prev_after_elem prev w :
  w ≠ [] → ∃ d, prev_after prev w = Some d ∧ d ∈ w.
Proof.
  intros Hw. unfold prev_after. destruct (last w) as [d|] eqn:Hl.
  - exists d. split; [done|]. apply last_Some in Hl as [l' ->]. set_solver.
  - by apply last_None in Hl.
Qed.

(** What a match of the abbreviation pattern looks like. *)
Lemma lang_abbrev prev m rest :
  lang abbrev_pattern prev m rest →
  2 ≤ length m ∧ Forall (λ c, is_AZ c = true) m
  ∧ word_before prev = false ∧ word_here rest = false.
Proof.
  intros (Hb1 & (c & w' & -> & Hc & Hne & Hw')%lang_run & Hb2)%lang_whole_word.
  assert (HAZ : Forall (λ c, is_AZ c = true) (c :: w')) by by constructor.
  repeat split; [|done|..].
  - destruct w'; [done | simpl; lia].
  - unfold at_boundary in Hb1. simpl in Hb1.
    rewrite (is_AZ_is_word _ Hc) in Hb1. by destruct (word_before prev).
  - destruct (prev_after_elem prev (c :: w')) as (d & Hd & Hin); [done|].
    rewrite Hd in Hb2. unfold at_boundary in Hb2. simpl in Hb2.
    rewrite Forall_forall in HAZ.
    rewrite (is_AZ_is_word _ (HAZ _ Hin)) in Hb2. by destruct (word_here rest).
Qed.

Lemma greedy_all p k prev w post res :
  Forall (λ c, p c = true) w →
  (∀ c post', post = c :: post' → p c = false) →
  k (prev_after prev w) post = Some res →
  greedy p k prev (w ++ post) = Some res.
Proof.
  intros Hw Hpost. revert prev.
  induction Hw as [|c w Hc _ IH]; intros prev; simpl.
  - rewrite prev_after_nil. intros Hk.
    destruct post as [|c post']; simpl; [done|]. by rewrite (Hpost c post').
  - rewrite prev_after_cons, Hc. intros Hk. by rewrite (IH _ Hk).
Qed.

(** A whole-word run of capitals is matched, and matched entirely. *)
Lemma match_at_abbrev prev run post :
  2 ≤ length run → Forall (λ c, is_AZ c = true) run →
  word_before prev = false → word_here post = false →
  match_at abbrev_pattern prev (run ++ post) = Some run.
Proof.
  intros Hlen HAZ Hprev Hpost.
  destruct run as [|c [|d w]]; simpl in Hlen; [lia..|].
  apply Forall_cons in HAZ as [Hc HAZ]. pose proof HAZ as Hdw.
  apply Forall_cons in HAZ as [Hd HAZ].
  unfold match_at, abbrev_pattern, whole_word. simpl rmatch.
  unfold at_boundary at 1. simpl. rewrite Hprev, (is_AZ_is_word _ Hc), Hc, Hd.
  simpl. rewrite (greedy_all _ _ _ w post post); [| done | | ].
  - f_equal. rewrite !length_app. simpl.
    replace (S (S (length w + length post)) - length post) with (S (S (length w))) by lia.
    change (c :: d :: w ++ post) with ((c :: d :: w) ++ post) at 1.
    by rewrite (take_app_length' (c :: d :: w)).
  - intros a post' ->. simpl in Hpost.
    destruct (is_AZ a) eqn:Ha; [|done]. by rewrite (is_AZ_is_word _ Ha) in Hpost.
  - simpl. destruct (prev_after_elem None (d :: w)) as (e & He & Hin); [done|].
    rewrite prev_after_cons in He. rewrite He. unfold at_boundary. simpl.
    rewrite Forall_forall in Hdw.
    by rewrite (is_AZ_is_word _ (Hdw _ Hin)), Hpost.
Qed.

Lemma finditer_abbrev_complete run post :
  2 ≤ length run → Forall (λ c, is_AZ c = true) run → word_here post = false →
  ∀ mid skip prev,
    inside_match skip prev (mid ++ run ++ post) →
    word_before (prev_after prev mid) = false →
    run ∈ finditer_from abbrev_pattern skip prev (mid ++ run ++ post).
Proof.
  intros Hlen HAZ Hpost. induction mid as [|c mid IH]; intros skip prev Hin Hprev.
  - rewrite prev_after_nil in Hprev.
    destruct Hin as [->|[Hw _]]; [|congruence].
    simpl. destruct run as [|a run]; [simpl in Hlen; lia|].
    simpl. change (a :: run ++ post) with ((a :: run) ++ post).
    rewrite match_at_abbrev by done. apply elem_of_cons. by left.
  - rewrite prev_after_cons in Hprev. simpl.
    destruct skip as [|n].
    + destruct (match_at abbrev_pattern prev (c :: mid ++ run ++ post))
        as [m|] eqn:Hm.
      * apply elem_of_cons. right. apply IH; [|done].
        apply match_at_sound in Hm as (rest & Hs & Hl).
        apply lang_abbrev in Hl as (Hm2 & HmAZ & _ & _).
        destruct m as [|a m]; [simpl in Hm2; lia|].
        simpl in Hs. injection Hs as <- Hs. rewrite Hs.
        apply Forall_cons in HmAZ as [Ha HmAZ].
        right. split; [by apply is_AZ_is_word|].
        simpl. rewrite Nat.sub_0_r, take_app_length.
        eapply Forall_impl; [exact HmAZ|]. intros ?. apply is_AZ_is_word.
      * apply IH; [by left | done].
    + apply IH; [|done].
      destruct Hin as [|[_ Hw]]; [done|].
      simpl in Hw. apply Forall_cons in Hw as [Hc Hw].
      destruct n; [by left | by right].
Qed.

(** ** Membership in the result of [extract_skills] *)

Lemma elem_of_foldl_known t x init l :
  x ∈ foldl (add_known_skill t) init l ↔
  x ∈ init ∨ (x ∈ l ∧ re_search (whole_word (re_escape x)) t = true).
Proof.
  revert init. induction l as [|skill l IH]; intros init; simpl.
  - rewrite elem_of_nil. tauto.
  - rewrite IH, elem_of_cons. unfold add_known_skill.
    destruct (re_search (whole_word (re_escape skill)) t) eqn:Hs.
    + rewrite elem_of_union, elem_of_singleton. split.
      * intros [[?| ->]|[? ?]]; auto.
      * intros [?|[[->|?] ?]]; auto.
    + split.
      * intros [?|[? ?]]; auto.
      * intros [?|[[->|?] ?]]; [auto | congruence | auto].
Qed.

Lemma elem_of_foldl_abbrev x init l :
  x ∈ foldl add_abbreviation init l ↔
  x ∈ init ∨ ∃ m, m ∈ l ∧ x = lower m ∧ 2 ≤ String.length (lower m).
Proof.
  revert init. induction l as [|m l IH]; intros init; simpl.
  - split; [by left|]. intros [?|(m & []%elem_of_nil & _)]; done.
  - rewrite IH. setoid_rewrite elem_of_cons. unfold add_abbreviation.
    destruct (2 <=? String.length (lower m)) eqn:Hlen.
    + apply Nat.leb_le in Hlen.
      rewrite elem_of_union, elem_of_singleton. split.
      * intros [[?| ->]|(m' & ? & ? & ?)]; [by left | right | right]; eauto.
      * intros [?|(m' & [->|?] & -> & ?)]; [by left; left | by left; right |].
        right; eauto.
    + apply Nat.leb_gt in Hlen. split.
      * intros [?|(m' & ? & ? & ?)]; [by left | right; eauto].
      * intros [?|(m' & [->|?] & -> & ?)]; [by left | lia | right; eauto].
Qed.

Lemma elem_of_foldl_phrase x init l :
  x ∈ foldl add_phrase init l ↔ x ∈ init ∨ (x ∈ l ∧ x ∈ all_skills).
Proof.
  revert init. induction l as [|phrase l IH]; intros init; simpl.
  - rewrite elem_of_nil. tauto.
  - rewrite IH, elem_of_cons. unfold add_phrase. case_bool_decide as Hp.
    + rewrite elem_of_union, elem_of_singleton. split.
      * intros [[?| ->]|[? ?]]; auto.
      * intros [?|[[->|?] ?]]; auto.
    + split.
      * intros [?|[? ?]]; auto.
      * intros [?|[[->|?] Hin]]; [auto | exfalso; exact (Hp Hin) | auto].
Qed.

Lemma elem_of_extract_skills text s :
  s ∈ extract_skills (Some text) ↔
  text ≠ "" ∧ (found_exact text s ∨ found_abbrev text s ∨ found_phrase text s).
Proof.
  destruct text as [|a text].
  - simpl. rewrite elem_of_empty. split; [done | by intros [? _]].
  - unfold extract_skills, found_exact, found_abbrev, found_phrase.
    rewrite elem_of_foldl_phrase, elem_of_foldl_abbrev, elem_of_foldl_known.
    rewrite elem_of_elements, elem_of_empty. split.
    + intros [[[[]|Hs]|Hs]|Hs]; (split; [done|]);
        [left | right; left | right; right]; exact Hs.
    + intros [_ [Hs|[Hs|Hs]]]; [left; left; right | left; right | right]; exact Hs.
Qed.

Lemma extract_skills_absent : extract_skills None = ∅.
Proof. done. Qed.

Lemma extract_skills_empty : extract_skills (Some "") = ∅.
Proof. done. Qed.

Lemma prev_after_None w : prev_after None w = last w.
Proof. unfold prev_after. by destruct (last w). Qed.

(** Each string returned by [re_findall] stands somewhere in the text. *)
Lemma re_findall_occurs pattern text w :
  w ∈ re_findall pattern text →
  ∃ pre rest, text = pre +:+ w +:+ rest
              ∧ lang pattern (last (chars pre)) (chars w) (chars rest).
Proof.
  unfold re_findall. intros (m & -> & Hm)%list_elem_of_fmap.
  apply finditer_from_sound in Hm as (pre & rest & Ht & Hl).
  rewrite prev_after_None in Hl.
  exists (of_chars pre), (of_chars rest). rewrite !chars_of_chars. split; [|done].
  by rewrite <- !of_chars_app, <- Ht, of_chars_chars.
Qed.

Lemma re_search_occurs pattern text :
  re_search pattern text = true →
  ∃ pre w rest, text = pre +:+ w +:+ rest
                ∧ lang pattern (last (chars pre)) (chars w) (chars rest).
Proof.
  unfold re_search. intros (pre & m & rest & Ht & Hl)%search_from_sound.
  rewrite prev_after_None in Hl.
  exists (of_chars pre), (of_chars m), (of_chars rest).
  rewrite !chars_of_chars. split; [|done].
  by rewrite <- !of_chars_app, <- Ht, of_chars_chars.
Qed.

Lemma no_upper_infix pre w rest :
  no_upper (pre +:+ w +:+ rest) = true → no_upper w = true.
Proof.
  rewrite !no_upper_Forall, !chars_app, !Forall_app. tauto.
Qed.

Lemma elem_of_ngrams n words s :
  s ∈ ngrams n words → ∃ i, s = join " " (take n (drop i words)).
Proof. unfold ngrams. intros (i & -> & _)%list_elem_of_fmap. by exists i. Qed.

Lemma is_upper_run_spec pre run post :
  is_upper_run pre run post = true ↔
  2 ≤ length (chars run) ∧ Forall (λ c, is_AZ c = true) (chars run)
  ∧ word_before (last (chars pre)) = false ∧ word_here (chars post) = false.
Proof.
  unfold is_upper_run.
  rewrite !andb_true_iff, !negb_true_iff, Nat.leb_le, chars_length.
  rewrite forallb_forall, Forall_forall.
  setoid_rewrite list_elem_of_In. tauto.
Qed.

Lemma found_abbrev_upper_run text s :
  found_abbrev text s →
  ∃ pre run post, text = pre +:+ run +:+ post
                  ∧ is_upper_run pre run post = true ∧ s = lower run.
Proof.
  intros (m & (pre & rest & -> & Hl)%re_findall_occurs & -> & _).
  exists pre, m, rest. split; [done|]. split; [|done].
  apply is_upper_run_spec. by apply lang_abbrev in Hl.
Qed.

Lemma upper_run_found_abbrev pre run post :
  is_upper_run pre run post = true →
  found_abbrev (pre +:+ run +:+ post) (lower run).
Proof.
  intros (Hlen & HAZ & Hpre & Hpost)%is_upper_run_spec.
  exists run. repeat split.
  - unfold re_findall. rewrite !chars_app.
    apply list_elem_of_fmap. exists (chars run). split; [by rewrite of_chars_chars|].
    apply finditer_abbrev_complete; [done.. | by left |].
    by rewrite prev_after_None.
  - by rewrite lower_length, <- chars_length.
Qed.

Lemma found_exact_no_upper text s : found_exact text s → no_upper s = true.
Proof.
  intros [_ (pre & w & rest & Ht & Hl)%re_search_occurs].
  apply lang_whole_word in Hl as (_ & Hl & _).
  apply lang_literal in Hl. apply (f_equal of_chars) in Hl.
  rewrite !of_chars_chars in Hl. subst w.
  apply (no_upper_infix pre _ rest). rewrite <- Ht. apply no_upper_lower.
Qed.

Lemma found_phrase_no_upper text s : found_phrase text s → no_upper s = true.
Proof.
  intros [Hs _]. set (words := re_findall words_pattern (lower text)) in *.
  assert (Hwords : Forall (λ w, no_upper w = true) words).
  { apply Forall_forall. intros w (pre & rest & Ht & _)%re_findall_occurs.
    apply (no_upper_infix pre _ rest). rewrite <- Ht. apply no_upper_lower. }
  apply elem_of_app in Hs as [(i & ->)%elem_of_ngrams|(i & ->)%elem_of_ngrams];
    by apply no_upper_join, Forall_take, Forall_drop.
Qed.

Lemma extract_skills_no_upper text s :
  s ∈ extract_skills text → no_upper s = true.
Proof.
  destruct text as [text|]; [|by rewrite extract_skills_absent, elem_of_empty].
  intros [_ [H|[(m & _ & -> & _)|H]]]%elem_of_extract_skills.
  - by eapply found_exact_no_upper.
  - apply no_upper_lower.
  - by eapply found_phrase_no_upper.
Qed.

Lemma elem_of_sorted (s : string) (X : gset string) :
  s ∈ sorted (elements X) ↔ s ∈ X.
Proof. unfold sorted. by rewrite merge_sort_Permutation, elem_of_elements. Qed.

Lemma list_to_set_sorted (X : gset string) :
  list_to_set (sorted (elements X)) = X.
Proof. apply set_eq. intros s. by rewrite elem_of_list_to_set, elem_of_sorted. Qed.

Ltac by_evaluation := vm_compute; reflexivity.

Lemma elem_of_by_evaluation (s : string) (X : gset string) :
  bool_decide (s ∈ X) = true → s ∈ X.
Proof. apply bool_decide_eq_true_1. Qed.

Lemma not_elem_of_by_evaluation (s : string) (X : gset string) :
  bool_decide (s ∈ X) = false → s ∉ X.
Proof. apply bool_decide_eq_false_1. Qed.


(** ** Exact arithmetic *)

Section RealArithmetic.
Local Open Scope R_scope.

Lemma real_of_nat_0 : s_of_nat (A:=R) 0 = 0.
Proof. done. Qed.

Lemma real_of_nat_100 : s_of_nat (A:=R) 100 = 100.
Proof. unfold s_of_nat, real_scalar. by rewrite INR_IZR_INZ. Qed.

Lemma foldl_Rplus_shift {B} (f : B → R) (a : R) (l : list B) :
  foldl (λ acc x, acc + f x) a l = a + foldl (λ acc x, acc + f x) 0 l.
Proof.
  revert a. induction l as [|x l IH]; intros a; simpl; [lra|].
  rewrite (IH (a + f x)), (IH (0 + f x)). lra.
Qed.

Lemma sum_squares_nil : sum_squares (A:=R) [] = 0.
Proof. done. Qed.

Lemma sum_squares_cons (x : R) row :
  sum_squares (x :: row) = x * x + sum_squares row.
Proof.
  unfold sum_squares. cbn.
  rewrite (foldl_Rplus_shift (λ x, x * x)). lra.
Qed.

Lemma dot_nil_l (v : list R) : dot [] v = 0.
Proof. done. Qed.

Lemma dot_nil_r (u : list R) : dot u [] = 0.
Proof. by destruct u. Qed.

Lemma dot_cons (x y : R) u v : dot (x :: u) (y :: v) = x * y + dot u v.
Proof.
  unfold dot. cbn.
  rewrite (foldl_Rplus_shift (λ xy, xy.1 * xy.2)). cbn. lra.
Qed.

Lemma sum_squares_nonneg (row : list R) : 0 <= sum_squares row.
Proof.
  induction row as [|x row IH]; [rewrite sum_squares_nil; lra|].
  rewrite sum_squares_cons. nra.
Qed.

Lemma sum_squares_zero (row : list R) :
  sum_squares row = 0 → Forall (λ x, x = 0) row.
Proof.
  induction row as [|x row IH]; [constructor|].
  rewrite sum_squares_cons. intros Hs.
  pose proof (sum_squares_nonneg row). constructor; [nra|]. apply IH. nra.
Qed.

Lemma dot_zero_l (u v : list R) : Forall (λ x, x = 0) u → dot u v = 0.
Proof.
  intros Hu. revert v. induction Hu as [|x u -> _ IH]; intros v; [done|].
  destruct v as [|y v]; [done|]. rewrite dot_cons, IH. lra.
Qed.

Lemma dot_self (u : list R) : dot u u = sum_squares u.
Proof.
  induction u as [|x u IH]; [done|]. by rewrite dot_cons, sum_squares_cons, IH.
Qed.

Lemma sum_squares_scaled (n : R) (row : list R) :
  n ≠ 0 → sum_squares ((λ x, x / n) <$> row) = sum_squares row / (n * n).
Proof.
  intros Hn. induction row as [|x row IH].
  - simpl. rewrite sum_squares_nil. field. done.
  - rewrite fmap_cons, !sum_squares_cons, IH. field. done.
Qed.

Lemma real_is_zero (x : R) : s_is_zero x = true ↔ x = 0.
Proof. unfold s_is_zero, real_scalar. by destruct (Req_dec_T x 0). Qed.

(** A row is either all zero and left alone, or scaled to unit length. *)
Lemma normalize_cases (row : list R) :
  (Forall (λ x, x = 0) row ∧ normalize row = row)
  ∨ (0 < sum_squares row ∧ sum_squares (normalize row) = 1
     ∧ normalize row = (λ x, x / R_sqrt.sqrt (sum_squares row)) <$> row).
Proof.
  unfold normalize. destruct (s_is_zero (sum_squares row)) eqn:Hz.
  - left. apply real_is_zero in Hz. split; [by apply sum_squares_zero | done].
  - right. assert (Hne : sum_squares row ≠ 0).
    { intros H0. apply real_is_zero in H0. congruence. }
    pose proof (sum_squares_nonneg row) as Hge.
    assert (Hpos : 0 < sum_squares row) by lra.
    split; [done|]. split; [|done].
    change (s_sqrt (sum_squares row)) with (R_sqrt.sqrt (sum_squares row)).
    change (λ x : R, s_div x (R_sqrt.sqrt (sum_squares row)))
      with (λ x : R, x / R_sqrt.sqrt (sum_squares row)).
    assert (Hs : R_sqrt.sqrt (sum_squares row) ≠ 0).
    { pose proof (sqrt_lt_R0 _ Hpos). lra. }
    rewrite sum_squares_scaled by done. rewrite sqrt_sqrt by lra. by field.
Qed.

Lemma cosine_self (u : list R) :
  0 < sum_squares u → dot (normalize u) (normalize u) = 1.
Proof.
  intros Hpos. rewrite dot_self.
  destruct (normalize_cases u) as [[Hz _]|(_ & Hu1 & _)]; [|done].
  assert (sum_squares u = 0) by (rewrite <- dot_self; by apply dot_zero_l).
  lra.
Qed.

(** *** Rounding *)

Lemma round_half_even_ge (k : Z) (x : R) : IZR k <= x → (k <= round_half_even x)%Z.
Proof.
  intros Hk. unfold round_half_even.
  destruct (base_Int_part x) as [Hlo Hhi].
  assert (k <= Int_part x)%Z.
  { apply Z.lt_succ_r, lt_IZR. rewrite succ_IZR. lra. }
  repeat destruct (Rlt_dec _ _); try destruct (Z.even _); lia.
Qed.

Lemma round_half_even_le (k : Z) (x : R) : x <= IZR k → (round_half_even x <= k)%Z.
Proof.
  intros Hk. unfold round_half_even.
  destruct (base_Int_part x) as [Hlo Hhi].
  assert (Int_part x <= k)%Z by (apply le_IZR; lra).
  destruct (Rlt_dec _ _) as [|Hd]; [done|].
  assert (Int_part x + 1 <= k)%Z.
  { apply Z.le_succ_l, lt_IZR. lra. }
  destruct (Rlt_dec _ _); [done|]. by destruct (Z.even _).
Qed.

Lemma round2_bounds (lo hi : Z) (x : R) :
  IZR lo <= x * 100 <= IZR hi → IZR lo / 100 <= round2 x <= IZR hi / 100.
Proof.
  intros [Hlo Hhi]. unfold round2, real_round2.
  apply round_half_even_ge, IZR_le in Hlo.
  apply round_half_even_le, IZR_le in Hhi. lra.
Qed.
End RealArithmetic.

Section RealAnalysis.
Local Open Scope R_scope.

Lemma match_percentage_real (resume_text job_text : string) :
  match_percentage (analyze (A:=R) resume_text job_text) =
  round2 ((calculate_similarity resume_text job_text * (1 / 2)
           + coverage_of
               (find_matching_skills (extract_skills (Some resume_text))
                                     (extract_skills (Some job_text)))
               (extract_skills (Some job_text)) * (1 / 2)) * 100).
Proof.
  unfold analyze. cbn [match_percentage]. by rewrite real_of_nat_100.
Qed.

(** Identical documents with at least one token have cosine 1. *)
Lemma calculate_similarity_same (text : string) :
  re_findall token_pattern (lower text) ≠ [] →
  calculate_similarity (A:=R) text text = 1.
Proof.
  intros Htok. unfold calculate_similarity.
  assert (Hne : text ≠ "") by (intros ->; by apply Htok).
  rewrite !bool_decide_false by done. cbn [orb].
  unfold fit_transform. cbn [fmap list_fmap concat]. rewrite lower_idemp.
  set (toks := re_findall token_pattern (lower text)) in *.
  set (vocabulary := sorted _).
  assert (Hvoc : ∀ w, w ∈ vocabulary ↔ w ∈ toks).
  { intros w. unfold vocabulary. rewrite elem_of_sorted, elem_of_list_to_set.
    rewrite !elem_of_app, elem_of_nil. tauto. }
  destruct vocabulary as [|w vocabulary].
  - destruct toks as [|w toks]; [done|].
    exfalso. eapply elem_of_nil. apply Hvoc. by left.
  - cbn [fmap list_fmap]. unfold cosine_similarity. cbn.
    apply cosine_self. rewrite sum_squares_cons.
    pose proof (sum_squares_nonneg
      (INR <$> ((λ w0, length (filter (λ t, t = w0) toks)) <$> vocabulary))).
    assert (Hw : w ∈ toks) by (apply Hvoc; by left).
    assert (1 <= INR (length (filter (λ t, t = w) toks))).
    { apply (le_INR 1).
      assert (Hin : w ∈ filter (λ t, t = w) toks) by by apply list_elem_of_filter.
      destruct (filter _ toks); [by apply elem_of_nil in Hin | simpl; lia]. }
    nra.
Qed.
End RealAnalysis.

Lemma calculate_similarity_empty `{Scalar A} (resume_text job_text : string) :
  resume_text = "" ∨ job_text = "" →
  calculate_similarity (A:=A) resume_text job_text = s_of_nat 0.
Proof.
  intros Hempty. unfold calculate_similarity.
  destruct Hempty as [-> | ->].
  - by rewrite bool_decide_true by done.
  - by rewrite (bool_decide_true ("" = "")), orb_true_r by done.
Qed.

(** ** Patterns given as text *)




















(** * The claims *)

(** C2 (vocabulary storage is lowercase).  The claim does not hold of the
    code: the common-skills literal holds the two capitalised entries
    "Golang" and "Go", and both reach the flattened set [all_skills].
    They are the only entries that are not lowercase, and since matching
    runs on the lowercased text neither of them can ever be extracted. *)
Theorem vocabulary_has_capitalised_entries (text : option string) :
  "Golang" ∈ common_tech_skills ∧ "Go" ∈ common_tech_skills
  ∧ "Golang" ∈ all_skills ∧ "Go" ∈ all_skills
  ∧ no_upper "Golang" = false ∧ no_upper "Go" = false
  ∧ filter (λ s, no_upper s = false) all_skills = {[ "Golang"; "Go" ]}
  ∧ "go" ∈ all_skills
  ∧ ("Golang" ∉ extract_skills text) ∧ ("Go" ∉ extract_skills text).
Proof.
  split; [apply elem_of_by_evaluation; by_evaluation|].
  split; [apply elem_of_by_evaluation; by_evaluation|].
  split; [apply elem_of_by_evaluation; by_evaluation|].
  split; [apply elem_of_by_evaluation; by_evaluation|].
  split; [by_evaluation|]. split; [by_evaluation|]. split; [by_evaluation|].
  split; [apply elem_of_by_evaluation; by_evaluation|].
  split; intros Hin%extract_skills_no_upper; discriminate Hin.
Qed.

(** C3 (output is lowercase).  For every input, no element of the set
    returned by [extract_skills] holds an uppercase letter, and so none of
    the four skill lists of the result of [analyze] does. *)
Theorem extract_skills_lowercase `{Scalar A, Round2 A}
    (text : option string) (resume_text job_text : string) (s : string) :
  (s ∈ extract_skills text → no_upper s = true ∧ lower s = s)
  ∧ (s ∈ resume_skills (analyze resume_text job_text)
       ++ job_required_skills (analyze resume_text job_text)
       ++ matching_skills (analyze resume_text job_text)
       ++ missing_skills (analyze resume_text job_text) →
     no_upper s = true ∧ lower s = s).
Proof.
  assert (Hfix : ∀ t, s ∈ extract_skills t → no_upper s = true ∧ lower s = s).
  { intros t Hs%extract_skills_no_upper. split; [done | by apply no_upper_fixed]. }
  split; [apply Hfix|].
  unfold analyze, find_missing_skills, find_matching_skills. cbn [resume_skills
    job_required_skills matching_skills missing_skills].
  rewrite !elem_of_app, !elem_of_sorted.
  rewrite elem_of_difference, elem_of_intersection.
  intros [?|[?|[[? ?]|[? ?]]]]; eauto.
Qed.

Lemma extract_skills_lowercase_witness :
  "sql" ∈ extract_skills (Some "Python and SQL")
  ∧ "python" ∈ resume_skills (analyze (A:=R) "Python and SQL" "SQL wanted")
       ++ job_required_skills (analyze (A:=R) "Python and SQL" "SQL wanted")
       ++ matching_skills (analyze (A:=R) "Python and SQL" "SQL wanted")
       ++ missing_skills (analyze (A:=R) "Python and SQL" "SQL wanted")
  ∧ (no_upper "sql" = true ∧ lower "sql" = "sql")
  ∧ (no_upper "python" = true ∧ lower "python" = "python").
Proof.
  assert (H1 : "sql" ∈ extract_skills (Some "Python and SQL")).
  { apply elem_of_by_evaluation. by_evaluation. }
  assert (H2 : "python" ∈ resume_skills (analyze (A:=R) "Python and SQL" "SQL wanted")
       ++ job_required_skills (analyze (A:=R) "Python and SQL" "SQL wanted")
       ++ matching_skills (analyze (A:=R) "Python and SQL" "SQL wanted")
       ++ missing_skills (analyze (A:=R) "Python and SQL" "SQL wanted")).
  { apply elem_of_app. left. cbn [analyze resume_skills].
    apply elem_of_sorted, elem_of_by_evaluation. by_evaluation. }
  split; [exact H1|]. split; [exact H2|]. split.
  - exact (proj1 (extract_skills_lowercase (A:=R) (Some "Python and SQL")
                    "Python and SQL" "SQL wanted" "sql") H1).
  - exact (proj2 (extract_skills_lowercase (A:=R) (Some "Python and SQL")
                    "Python and SQL" "SQL wanted" "python") H2).
Defined.

(** C4 (whole-word matching).  Punctuation next to a term does not hide
    it: "Experienced in Python, and also Java." yields "python" and "java";
    a term inside a longer word is not matched: "javascript developer"
    does not yield "java". *)
Theorem extract_skills_whole_words :
  "python" ∈ extract_skills (Some "Experienced in Python, and also Java.")
  ∧ "java" ∈ extract_skills (Some "Experienced in Python, and also Java.")
  ∧ ("java" ∉ extract_skills (Some "javascript developer"))
  ∧ (re_search (whole_word (re_escape "java")) (lower "javascript developer") = false)
  ∧ (extract_skills (Some "javascript developer") = {[ "javascript" ]}).
Proof.
  repeat apply conj;
    try apply elem_of_by_evaluation; try apply not_elem_of_by_evaluation;
    by_evaluation.
Qed.

(** C5, as the claim states it: a whole-word run of capital letters is
    missed when one of them is outside A-Z.  The text "ÉCOLE" (É is the
    character 201) is one run of five uppercase letters, and nothing is
    extracted from it: the pattern's class [[A-Z]] leaves É out, and since É
    is a word character no boundary separates it from "COLE". *)
Lemma capital_run_outside_A_Z_is_missed :
  let text := String "201" "COLE" in
  is_capital_run "" text "" = true
  ∧ (lower text ∉ extract_skills (Some text))
  ∧ extract_skills (Some text) = ∅.
Proof.
  intros text. unfold text. split; [by_evaluation|].
  split; [apply not_elem_of_by_evaluation; by_evaluation|].
  assert (Hnone : bool_decide (extract_skills (Some (String "201" "COLE")) = ∅) = true)
    by by_evaluation.
  by apply bool_decide_eq_true_1 in Hnone.
Qed.

(** C5, amended.  Every whole-word run of two or more letters A-Z of the
    original text is in the result, lowercased, whether or not it is a
    vocabulary term; "Built CI/CD pipelines using AWS and GCP" yields "aws"
    and "gcp". *)
Theorem extract_skills_abbreviations (pre run post : string) :
  (is_upper_run pre run post = true →
   lower run ∈ extract_skills (Some (pre +:+ run +:+ post)))
  ∧ "aws" ∈ extract_skills (Some "Built CI/CD pipelines using AWS and GCP")
  ∧ "gcp" ∈ extract_skills (Some "Built CI/CD pipelines using AWS and GCP").
Proof.
  split; [|split; apply elem_of_by_evaluation; by_evaluation].
  intros Hrun. apply elem_of_extract_skills. split.
  - apply is_upper_run_spec in Hrun as (Hlen & _).
    intros Ht%(f_equal chars). rewrite !chars_app in Ht.
    destruct (chars run); [simpl in Hlen; lia|]. by destruct (chars pre).
  - right. left. by apply upper_run_found_abbrev.
Qed.

Lemma extract_skills_abbreviations_witness :
  is_upper_run "reports to the " "CEO" " of ACME" = true
  ∧ "ceo" ∈ extract_skills (Some "reports to the CEO of ACME")
  ∧ "ceo" ∉ all_skills.
Proof.
  split; [by_evaluation|]. split.
  - exact (proj1 (extract_skills_abbreviations "reports to the " "CEO" " of ACME")
             eq_refl).
  - apply not_elem_of_by_evaluation. by_evaluation.
Defined.




(** C10 (nothing else is emitted).  Every element of the result is a
    vocabulary term, or the lowercasing of a whole-word run of two or more
    capital letters of the original text. *)
Theorem extract_skills_sources (text : option string) (s : string) :
  s ∈ extract_skills text →
  s ∈ all_skills
  ∨ ∃ pre run post, text = Some (pre +:+ run +:+ post)
                    ∧ is_upper_run pre run post = true ∧ s = lower run.
Proof.
  destruct text as [text|]; [|by rewrite extract_skills_absent, elem_of_empty].
  intros [_ [[? _]|[Habbr|[_ ?]]]]%elem_of_extract_skills; [by left | | by left].
  right. apply found_abbrev_upper_run in Habbr as (pre & run & post & -> & ? & ->).
  by exists pre, run, post.
Qed.

Lemma extract_skills_sources_witness :
  "ceo" ∈ all_skills
  ∨ ∃ pre run post, Some "reports to the CEO of ACME" = Some (pre +:+ run +:+ post)
                    ∧ is_upper_run pre run post = true ∧ "ceo" = lower run.
Proof.
  apply (extract_skills_sources (Some "reports to the CEO of ACME") "ceo").
  apply elem_of_by_evaluation. by_evaluation.
Defined.

(** C1 (the score).  [analyze] returns the rounding to two places of
    (similarity * 0.5 + coverage * 0.5) * 100, where coverage is
    |matching| / |job skills| for a non-empty set of job skills and 0
    otherwise, matching = resume skills ∩ job skills and
    missing = job skills − matching.  This holds in every arithmetic. *)
Theorem analyze_match_percentage `{Scalar A, Round2 A}
    (resume_text job_text : string) :
  let resume_found := extract_skills (Some resume_text) in
  let job_skills := extract_skills (Some job_text) in
  let matching_found := resume_found ∩ job_skills in
  let missing_found := job_skills ∖ matching_found in
  let similarity := calculate_similarity (A:=A) resume_text job_text in
  let coverage :=
    if bool_decide (size job_skills ≠ 0)
    then s_div (s_of_nat (size matching_found)) (s_of_nat (size job_skills))
    else s_of_nat 0 in
  let result := analyze (A:=A) resume_text job_text in
  match_percentage result =
    round2 (s_mul (s_add (s_mul similarity s_half) (s_mul coverage s_half))
                  (s_of_nat 100))
  ∧ list_to_set (matching_skills result) = matching_found
  ∧ list_to_set (missing_skills result) = missing_found
  ∧ list_to_set (resume_skills result) = resume_found
  ∧ list_to_set (job_required_skills result) = job_skills.
Proof.
  intros resume_found job_skills matching_found missing_found similarity
    coverage result.
  assert (Hcov : coverage = coverage_of matching_found job_skills).
  { unfold coverage, coverage_of.
    destruct (decide (job_skills = ∅)) as [Hempty|Hne].
    - rewrite Hempty, size_empty. by rewrite !bool_decide_false by auto.
    - rewrite !bool_decide_true; [done.. |].
      by intros ?%size_empty_inv%leibniz_equiv. }
  rewrite Hcov. unfold result, analyze.
  cbn [match_percentage matching_skills missing_skills resume_skills
       job_required_skills].
  by rewrite !list_to_set_sorted.
Qed.

(** C7, as the claim states it: on binary64 the similarity of
    "same text" with itself is not 1.0 but the next number but one below
    it, because 1/sqrt(2) is rounded before it is squared. *)
Lemma similarity_of_same_text_is_not_one :
  calculate_similarity (A:=float) "same text" "same text"
    = 0x1.ffffffffffffep-1%float
  ∧ calculate_similarity (A:=float) "same text" "same text" ≠ 1%float
  ∧ PrimFloat.ltb (calculate_similarity (A:=float) "same text" "same text") 1 = true.
Proof.
  assert (Hv : calculate_similarity (A:=float) "same text" "same text"
               = 0x1.ffffffffffffep-1%float) by by_evaluation.
  split; [exact Hv|]. split; [|by_evaluation].
  rewrite Hv. intros Heq.
  assert (Hb : PrimFloat.eqb 0x1.ffffffffffffep-1 1 = true) by (by rewrite Heq).
  vm_compute in Hb. discriminate Hb.
Qed.

(** C7, amended.  [calculate_similarity] returns 0.0 exactly as soon as one
    argument is the empty string; for one text given twice, with at least
    one token, the cosine is 1 in exact arithmetic; on binary64 the value is
    1 up to rounding only, "same text" giving 0.9999999999999998. *)
Theorem calculate_similarity_empty_and_same (resume_text job_text text : string) :
  (resume_text = "" ∨ job_text = "" →
   calculate_similarity (A:=float) resume_text job_text = 0%float
   ∧ calculate_similarity (A:=R) resume_text job_text = 0%R)
  ∧ (re_findall token_pattern (lower text) ≠ [] →
     calculate_similarity (A:=R) text text = 1%R)
  ∧ calculate_similarity (A:=float) "same text" "same text"
    = 0x1.ffffffffffffep-1%float.
Proof.
  split; [|split; [apply calculate_similarity_same | by_evaluation]].
  intros Hempty. by rewrite !calculate_similarity_empty.
Qed.

Lemma calculate_similarity_empty_and_same_witness :
  ("" = "" ∨ "anything" = "")
  ∧ re_findall token_pattern (lower "same text") ≠ []
  ∧ calculate_similarity (A:=float) "" "anything" = 0%float
  ∧ calculate_similarity (A:=R) "same text" "same text" = 1%R.
Proof.
  assert (H1 : "" = "" ∨ "anything" = "") by (by left).
  assert (H2 : re_findall token_pattern (lower "same text") ≠ []).
  { assert (He : re_findall token_pattern (lower "same text") = ["same"; "text"])
      by by_evaluation.
    rewrite He. discriminate. }
  split; [exact H1|]. split; [exact H2|].
  pose proof (calculate_similarity_empty_and_same "" "anything" "same text")
    as (Hempty & Hsame & _).
  split; [exact (proj1 (Hempty H1)) | exact (Hsame H2)].
Defined.

(** C8 (end to end).  For the resume "Proficient in Python and SQL, 3 years
    Docker experience" and the job text "Looking for a Python developer
    with SQL and Kubernetes skills", the matching skills are python and
    sql, the only missing skill is kubernetes, the job skills include
    python, sql and kubernetes, and the score, computed on binary64 with
    the rounding of a NumPy scalar, is 51.01: strictly between 0 and
    100. *)
Theorem analyze_end_to_end :
  let result :=
    analyze (A:=pynum) "Proficient in Python and SQL, 3 years Docker experience"
      "Looking for a Python developer with SQL and Kubernetes skills" in
  matching_skills result = ["python"; "sql"]
  ∧ missing_skills result = ["kubernetes"]
  ∧ job_required_skills result = ["kubernetes"; "python"; "sql"]
  ∧ resume_skills result = ["docker"; "python"; "sql"]
  ∧ skill_count result
    = {| resume := 3; job_description := 3; matching := 2; missing := 1 |}
  ∧ match_percentage result
    = {| value := 0x1.98147ae147ae1p+5%float; is_numpy := true |}
  ∧ PrimFloat.ltb 0%float (value (match_percentage result)) = true
  ∧ PrimFloat.ltb (value (match_percentage result)) 100%float = true.
Proof.
  intros result. unfold result.
  split; [by_evaluation|]. split; [by_evaluation|]. split; [by_evaluation|].
  split; [by_evaluation|]. split; [by_evaluation|]. split; [by_evaluation|].
  split; by_evaluation.
Qed.

(** * Further properties of the matcher *)

(** ** Set operations of [analyze] *)

Lemma size_sorted_elements (X : gset string) : length (sorted (elements X)) = size X.
Proof. unfold sorted. by rewrite merge_sort_Permutation. Qed.

Lemma sorted_elements_strictly (X : gset string) :
  StronglySorted String.le (sorted (elements X)) ∧ NoDup (sorted (elements X)).
Proof.
  split.
  - apply (StronglySorted_merge_sort String.le).
  - unfold sorted. rewrite merge_sort_Permutation. apply NoDup_elements.
Qed.

(** X1.  The missing skills are exactly the job skills the resume lacks:
    computed as job − (resume ∩ job), they equal job − resume, they share
    nothing with the matching skills, and together with them they make up
    the job skills again. *)
Theorem find_missing_skills_laws (resume_found job_found : gset string) :
  let matching_found := find_matching_skills resume_found job_found in
  let missing_found := find_missing_skills resume_found job_found matching_found in
  missing_found = job_found ∖ resume_found
  ∧ missing_found ∩ matching_found = ∅
  ∧ missing_found ∪ matching_found = job_found
  ∧ missing_found ∩ resume_found = ∅.
Proof.
  unfold find_matching_skills, find_missing_skills. cbn zeta.
  repeat apply conj; apply set_eq; intros x;
    rewrite ?elem_of_union, ?elem_of_intersection, ?elem_of_difference,
      ?elem_of_intersection, ?elem_of_empty;
    destruct (decide (x ∈ resume_found)); tauto.
Qed.

(** X2.  The four counts of the result are the lengths of the four lists
    it returns; matching and missing add up to the job count, and the
    matching count exceeds neither the resume count nor the job count. *)
Theorem analyze_skill_count `{Scalar A, Round2 A} (resume_text job_text : string) :
  let result := analyze (A:=A) resume_text job_text in
  resume (skill_count result) = length (resume_skills result)
  ∧ job_description (skill_count result) = length (job_required_skills result)
  ∧ matching (skill_count result) = length (matching_skills result)
  ∧ missing (skill_count result) = length (missing_skills result)
  ∧ matching (skill_count result) + missing (skill_count result)
    = job_description (skill_count result)
  ∧ matching (skill_count result) ≤ resume (skill_count result)
  ∧ matching (skill_count result) ≤ job_description (skill_count result).
Proof.
  unfold analyze, find_missing_skills, find_matching_skills.
  cbn [skill_count resume job_description matching missing resume_skills
       job_required_skills matching_skills missing_skills].
  rewrite !size_sorted_elements.
  set (R := extract_skills (Some resume_text)).
  set (J := extract_skills (Some job_text)).
  assert (HJ : R ∩ J ⊆ J) by apply intersection_subseteq_r.
  assert (HR : R ∩ J ⊆ R) by apply intersection_subseteq_l.
  pose proof (subseteq_size _ _ HJ). pose proof (subseteq_size _ _ HR).
  pose proof (size_difference J (R ∩ J) HJ) as Hd. rewrite Hd.
  repeat split; try done; lia.
Qed.

(** X3.  Each of the four skill lists of the result is in ascending
    code-point order and has no repeated entry. *)
Theorem analyze_lists_sorted `{Scalar A, Round2 A} (resume_text job_text : string) :
  let result := analyze (A:=A) resume_text job_text in
  Forall (λ l, StronglySorted String.le l ∧ NoDup l)
    [resume_skills result; job_required_skills result;
     matching_skills result; missing_skills result].
Proof.
  unfold analyze.
  cbn [resume_skills job_required_skills matching_skills missing_skills].
  repeat constructor; apply sorted_elements_strictly.
Qed.

(** ** Further properties of [calculate_similarity] *)

Lemma lower_empty_iff s : lower s = "" ↔ s = "".
Proof.
  split; [|by intros ->].
  intros Hs%(f_equal String.length). rewrite lower_length in Hs. by destruct s.
Qed.

Lemma fit_transform_pair (ta tb : string) :
  fit_transform [ta; tb] =
  let toks_a := re_findall token_pattern (lower ta) in
  let toks_b := re_findall token_pattern (lower tb) in
  let vocabulary := sorted (elements (list_to_set (C:=gset string) (toks_a ++ toks_b))) in
  match vocabulary with
  | [] => None
  | _ => Some [count_tokens vocabulary toks_a; count_tokens vocabulary toks_b]
  end.
Proof. unfold fit_transform. cbn [fmap list_fmap concat]. by rewrite app_nil_r. Qed.

Lemma cosine_similarity_pair `{Scalar A} (ra rb : list nat) :
  cosine_similarity (A:=A) [ra; rb] !! 0%nat ≫= (.!! 1%nat)
  = Some (dot (normalize (s_of_nat <$> ra)) (normalize (s_of_nat <$> rb))).
Proof. done. Qed.




(** X5.  When neither text has a token (a run of two or more word
    characters), the vectorizer fails on its empty vocabulary; the failure
    is caught and the similarity is 0. *)
Theorem calculate_similarity_no_tokens `{Scalar A} (resume_text job_text : string) :
  re_findall token_pattern (lower resume_text) = [] →
  re_findall token_pattern (lower job_text) = [] →
  fit_transform [lower resume_text; lower job_text] = None
  ∧ calculate_similarity (A:=A) resume_text job_text = s_of_nat 0.
Proof.
  intros Ha Hb.
  assert (Hfit : fit_transform [lower resume_text; lower job_text] = None).
  { rewrite fit_transform_pair, !lower_idemp, Ha, Hb. cbn zeta.
    by assert (sorted (elements (list_to_set (C:=gset string) ([] ++ []))) = [])
      as -> by by_evaluation. }
  split; [done|]. unfold calculate_similarity. rewrite Hfit. by destruct (_ || _).
Qed.

Lemma calculate_similarity_no_tokens_witness :
  fit_transform [lower "R & D"; lower "C / C++ ?"] = None
  ∧ calculate_similarity (A:=float) "R & D" "C / C++ ?" = 0%float.
Proof.
  assert (Ha : re_findall token_pattern (lower "R & D") = []) by by_evaluation.
  assert (Hb : re_findall token_pattern (lower "C / C++ ?") = []) by by_evaluation.
  exact (calculate_similarity_no_tokens (A:=float) "R & D" "C / C++ ?" Ha Hb).
Defined.

(** X6.  The similarity ignores letter case: lowercasing either text
    beforehand changes nothing, in any arithmetic. *)
Theorem calculate_similarity_ignores_case `{Scalar A} (resume_text job_text : string) :
  calculate_similarity (A:=A) (lower resume_text) (lower job_text)
  = calculate_similarity (A:=A) resume_text job_text.
Proof.
  unfold calculate_similarity. rewrite !lower_idemp.
  rewrite (bool_decide_ext _ _ (lower_empty_iff resume_text)).
  by rewrite (bool_decide_ext _ _ (lower_empty_iff job_text)).
Qed.

Section RealSimilarity.
Local Open Scope R_scope.

Lemma normalize_scales (row : list R) :
  ∃ c, normalize row = (λ x, x * c) <$> row.
Proof.
  destruct (normalize_cases row) as [[_ ->]|(_ & _ & ->)].
  - exists 1. rewrite <- (list_fmap_id row) at 1. apply list_fmap_ext.
    intros _ x _. simpl. lra.
  - exists (/ R_sqrt.sqrt (sum_squares row)). done.
Qed.

Lemma dot_orthogonal (u v : list R) :
  Forall2 (λ x y, x * y = 0) u v → dot u v = 0.
Proof.
  induction 1 as [|x y u v Hxy _ IH]; [done|]. rewrite dot_cons, IH, Hxy. lra.
Qed.

Lemma counts_orthogonal (vocabulary toks_a toks_b : list string) :
  (∀ w, w ∈ toks_a → w ∉ toks_b) →
  Forall2 (λ x y : R, x * y = 0)
    (s_of_nat <$> count_tokens vocabulary toks_a)
    (s_of_nat <$> count_tokens vocabulary toks_b).
Proof.
  intros Hdisj. unfold count_tokens.
  induction vocabulary as [|w vocabulary IH]; [constructor|].
  rewrite !fmap_cons. constructor; [|done].
  assert (Hnone : ∀ toks, w ∉ toks → length (filter (λ t, t = w) toks) = 0%nat).
  { intros toks Hw. destruct (filter (λ t, t = w) toks) as [|t l] eqn:Hf; [done|].
    assert (Ht : t ∈ filter (λ t, t = w) toks) by (rewrite Hf; by left).
    apply list_elem_of_filter in Ht as [-> ?]. done. }
  unfold s_of_nat, real_scalar.
  destruct (decide (w ∈ toks_a)) as [Ha|Ha].
  - rewrite (Hnone toks_b) by auto. simpl. lra.
  - rewrite (Hnone toks_a) by auto. simpl. lra.
Qed.

(** X7.  In exact arithmetic, two texts without a common token have
    similarity 0. *)
Theorem calculate_similarity_disjoint (resume_text job_text : string) :
  (∀ w, w ∈ re_findall token_pattern (lower resume_text) →
        w ∉ re_findall token_pattern (lower job_text)) →
  calculate_similarity (A:=R) resume_text job_text = 0.
Proof.
  intros Hdisj. unfold calculate_similarity.
  destruct (_ || _); [done|]. rewrite fit_transform_pair, !lower_idemp. cbn zeta.
  destruct (sorted _) as [|w vocabulary]; [done|].
  rewrite cosine_similarity_pair.
  set (vocabulary' := w :: vocabulary).
  destruct (normalize_scales (s_of_nat <$> count_tokens vocabulary'
    (re_findall token_pattern (lower resume_text)))) as [c ->].
  destruct (normalize_scales (s_of_nat <$> count_tokens vocabulary'
    (re_findall token_pattern (lower job_text)))) as [d ->].
  apply dot_orthogonal, Forall2_fmap.
  eapply Forall2_impl; [by apply counts_orthogonal|].
  intros x y Hxy. simpl.
  replace (x * c * (y * d)) with (x * y * (c * d)) by ring. rewrite Hxy. ring.
Qed.

Lemma calculate_similarity_disjoint_witness :
  calculate_similarity (A:=R) "python developer" "java engineer" = 0.
Proof.
  apply calculate_similarity_disjoint.
  assert (Ha : re_findall token_pattern (lower "python developer")
               = ["python"; "developer"]) by by_evaluation.
  assert (Hb : re_findall token_pattern (lower "java engineer")
               = ["java"; "engineer"]) by by_evaluation.
  rewrite Ha, Hb. intros w Hw Hw'.
  apply elem_of_cons in Hw as [->|Hw];
    [|apply elem_of_cons in Hw as [->|Hw]; [|by apply elem_of_nil in Hw]];
    (apply elem_of_cons in Hw' as [?|Hw']; [done|]);
    (apply elem_of_cons in Hw' as [?|Hw']; [done|]); by apply elem_of_nil in Hw'.
Defined.
End RealSimilarity.

(** ** Edge cases of [analyze], in exact arithmetic *)

Section RealEdgeCases.
Local Open Scope R_scope.

Lemma round2_exact (k : Z) : round2 (IZR k / 100) = IZR k / 100.
Proof.
  destruct (round2_bounds k k (IZR k / 100)) as [Hlo Hhi]; [lra|]. lra.
Qed.

Lemma coverage_no_match (job_found : gset string) :
  coverage_of (A:=R) ∅ job_found = 0.
Proof.
  unfold coverage_of. destruct (bool_decide _); [|done].
  rewrite size_empty. unfold s_div, s_of_nat, real_scalar. simpl. lra.
Qed.

(** X8.  If the resume text or the job text is empty, no skill matches
    and the score is 0; with an empty resume every job skill is missing,
    with an empty job text nothing is. *)
Theorem analyze_empty_text (resume_text job_text : string) :
  resume_text = "" ∨ job_text = "" →
  match_percentage (analyze (A:=R) resume_text job_text) = 0
  ∧ matching_skills (analyze (A:=R) resume_text job_text) = []
  ∧ (resume_text = "" →
     resume_skills (analyze (A:=R) resume_text job_text) = []
     ∧ missing_skills (analyze (A:=R) resume_text job_text)
       = job_required_skills (analyze (A:=R) resume_text job_text))
  ∧ (job_text = "" →
     job_required_skills (analyze (A:=R) resume_text job_text) = []
     ∧ missing_skills (analyze (A:=R) resume_text job_text) = []).
Proof.
  intros Hempty.
  assert (Hnil : sorted (elements (∅ : gset string)) = []) by by_evaluation.
  assert (Hmatch : find_matching_skills (extract_skills (Some resume_text))
                     (extract_skills (Some job_text)) = ∅).
  { unfold find_matching_skills. destruct Hempty as [-> | ->];
      rewrite extract_skills_empty; apply set_eq; intros x;
      rewrite elem_of_intersection, elem_of_empty; tauto. }
  rewrite match_percentage_real, Hmatch, coverage_no_match.
  rewrite (calculate_similarity_empty (A:=R)) by done. rewrite real_of_nat_0.
  split.
  { replace ((0 * (1 / 2) + 0 * (1 / 2)) * 100) with (IZR 0 / 100) by lra.
    rewrite round2_exact. lra. }
  unfold analyze.
  cbn [matching_skills resume_skills missing_skills job_required_skills].
  rewrite Hmatch. split; [done|]. unfold find_missing_skills. split; intros ->.
  - rewrite extract_skills_empty. split; [done|]. f_equal. f_equal.
    apply set_eq. intros x. rewrite elem_of_difference, elem_of_empty. tauto.
  - rewrite extract_skills_empty. split; [done|].
    assert (∅ ∖ ∅ = (∅ : gset string)) as -> by by_evaluation. done.
Qed.

Lemma analyze_empty_text_witness :
  match_percentage (analyze (A:=R) "" "Python wanted") = 0
  ∧ missing_skills (analyze (A:=R) "" "Python wanted")
    = job_required_skills (analyze (A:=R) "" "Python wanted").
Proof.
  destruct (analyze_empty_text "" "Python wanted") as (Hmp & _ & Hres & _);
    [by left|].
  split; [exact Hmp | exact (proj2 (Hres eq_refl))].
Defined.

End RealEdgeCases.

(** ** Identical texts *)

(** X9.  For a resume identical to the job text nothing is missing and the
    matching skills are the job skills, whatever the arithmetic.  On
    binary64 the similarity of a text with itself is 1 only up to rounding,
    and [round(_, 2)] absorbs the difference: "Python wanted" has
    similarity 0.9999999999999998 and scores 100.0, "nothing relevant here"
    has similarity 1.0000000000000002 and scores 50.0. *)
Theorem analyze_identical_texts `{Scalar A, Round2 A} (text : string) :
  missing_skills (analyze (A:=A) text text) = []
  ∧ matching_skills (analyze (A:=A) text text)
    = job_required_skills (analyze (A:=A) text text)
  ∧ calculate_similarity (A:=pynum) "Python wanted" "Python wanted"
    = {| value := 0x1.ffffffffffffep-1%float; is_numpy := true |}
  ∧ match_percentage (analyze (A:=pynum) "Python wanted" "Python wanted")
    = {| value := 100%float; is_numpy := true |}
  ∧ calculate_similarity (A:=pynum) "nothing relevant here" "nothing relevant here"
    = {| value := 0x1.0000000000001p+0%float; is_numpy := true |}
  ∧ match_percentage
      (analyze (A:=pynum) "nothing relevant here" "nothing relevant here")
    = {| value := 50%float; is_numpy := true |}.
Proof.
  assert (Hmatch : find_matching_skills (extract_skills (Some text))
                     (extract_skills (Some text)) = extract_skills (Some text)).
  { unfold find_matching_skills. apply set_eq. intros x.
    rewrite elem_of_intersection. tauto. }
  split; [|split; [|split; [by_evaluation|split; [by_evaluation|split; by_evaluation]]]].
  - unfold analyze. cbn [missing_skills]. rewrite Hmatch. unfold find_missing_skills.
    assert (extract_skills (Some text) ∖ extract_skills (Some text) = ∅) as ->.
    { apply set_eq. intros x. rewrite elem_of_difference, elem_of_empty. tauto. }
    by_evaluation.
  - unfold analyze. cbn [matching_skills job_required_skills]. by rewrite Hmatch.
Qed.

(** ** Further properties of [extract_skills] *)

Lemma rmatch_literal l k prev rest :
  rmatch (foldr (λ c r, Cat (Lit c) r) Eps l) k prev (l ++ rest)
  = k (prev_after prev l) rest.
Proof.
  revert prev. induction l as [|c l IH]; intros prev; [done|].
  simpl. rewrite bool_decide_true by done. by rewrite IH, prev_after_cons.
Qed.

Lemma match_at_literal l prev rest :
  at_boundary prev (l ++ rest) = true →
  at_boundary (prev_after prev l) rest = true →
  match_at (whole_word (foldr (λ c r, Cat (Lit c) r) Eps l)) prev (l ++ rest) = Some l.
Proof.
  intros Hb1 Hb2. unfold match_at, whole_word. simpl.
  rewrite Hb1, rmatch_literal. simpl. rewrite Hb2.
  by rewrite length_app, Nat.add_sub, take_app_length.
Qed.

Lemma search_from_complete r prev pre s m :
  match_at r (prev_after prev pre) s = Some m →
  search_from r prev (pre ++ s) = true.
Proof.
  revert prev. induction pre as [|c pre IH]; intros prev Hm.
  - rewrite prev_after_nil in Hm. destruct s; simpl; by rewrite Hm.
  - rewrite prev_after_cons in Hm. simpl.
    destruct (match_at r prev (c :: pre ++ s)); [done|]. by apply IH.
Qed.

(** X10.  The search of the exact pass succeeds exactly when the text
    holds the term with a word boundary on each side; so a vocabulary term
    standing that way in the lowercased text is always extracted. *)
Theorem exact_pass_whole_word (skill text : string) :
  (re_search (whole_word (re_escape skill)) text = true ↔
   ∃ pre post, text = pre +:+ skill +:+ post ∧ is_whole_word_at pre skill post = true)
  ∧ (skill ∈ all_skills →
     re_search (whole_word (re_escape skill)) (lower text) = true →
     skill ∈ extract_skills (Some text)).
Proof.
  split; [split|].
  - intros (pre & w & rest & -> & Hl)%re_search_occurs.
    apply lang_whole_word in Hl as (Hb1 & Hw%lang_literal & Hb2).
    apply (f_equal of_chars) in Hw. rewrite !of_chars_chars in Hw. subst w.
    exists pre, rest. split; [done|]. unfold is_whole_word_at.
    by rewrite Hb1, Hb2.
  - intros (pre & post & -> & [Hb1 Hb2]%andb_true_iff).
    unfold re_search. rewrite !chars_app.
    eapply search_from_complete. rewrite prev_after_None.
    by apply match_at_literal.
  - intros Hin Hsearch. apply elem_of_extract_skills. split.
    + intros ->. vm_compute in Hsearch. discriminate Hsearch.
    + left. split; assumption.
Qed.

Lemma exact_pass_whole_word_witness :
  "sql" ∈ extract_skills (Some "MySQL, SQL; NoSQL").
Proof.
  destruct (exact_pass_whole_word "sql" (lower "MySQL, SQL; NoSQL")) as [[_ Hfound] _].
  destruct (exact_pass_whole_word "sql" "MySQL, SQL; NoSQL") as [_ Hextract].
  apply Hextract; [apply elem_of_by_evaluation; by_evaluation|].
  apply Hfound. exists "mysql, ", "; nosql". split; by_evaluation.
Defined.

Lemma found_abbrev_iff text s :
  found_abbrev text s ↔ s ∈ lower <$> re_findall abbrev_pattern text.
Proof.
  rewrite list_elem_of_fmap. split.
  - intros (m & ? & -> & _). by exists m.
  - intros (m & -> & Hm). exists m. split; [done|]. split; [done|].
    apply re_findall_occurs in Hm as (pre & rest & _ & Hl).
    apply lang_abbrev in Hl as (Hlen & _). by rewrite lower_length, <- chars_length.
Qed.

Lemma found_abbrev_lowercased text s : ¬ found_abbrev (lower text) s.
Proof.
  intros (pre & run & post & Ht & Hrun & _)%found_abbrev_upper_run.
  apply is_upper_run_spec in Hrun as (Hlen & HAZ & _).
  pose proof (no_upper_lower text) as Hlow. rewrite Ht in Hlow.
  apply no_upper_infix, no_upper_Forall in Hlow.
  destruct (chars run) as [|c l]; [simpl in Hlen; lia|].
  apply Forall_cons in HAZ as [Hc%is_AZ_is_upper _].
  apply Forall_cons in Hlow as [Hc' _]. congruence.
Qed.

(** X11.  Letter case matters to the abbreviation pass only: the skills
    of a text are those of the lowercased text together with the
    lowercased abbreviations of the original, and a text without capitals
    yields vocabulary terms only. *)
Theorem extract_skills_case (text : string) :
  extract_skills (Some text)
  = extract_skills (Some (lower text))
    ∪ list_to_set (lower <$> re_findall abbrev_pattern text)
  ∧ extract_skills (Some (lower text)) ⊆ all_skills.
Proof.
  assert (Hlow : ∀ s, s ∈ extract_skills (Some (lower text)) ↔
            text ≠ "" ∧ (found_exact text s ∨ found_phrase text s)).
  { intros s. rewrite elem_of_extract_skills, lower_empty_iff.
    unfold found_exact, found_phrase. rewrite !lower_idemp.
    pose proof (found_abbrev_lowercased text s). tauto. }
  split.
  - apply set_eq. intros s.
    rewrite elem_of_union, elem_of_list_to_set, <- found_abbrev_iff, Hlow.
    rewrite elem_of_extract_skills. split; [tauto|].
    intros [?|Habbr]; [tauto|]. split; [|tauto].
    intros ->. destruct Habbr as (m & Hm & _).
    assert (Hnil : re_findall abbrev_pattern "" = []) by by_evaluation.
    rewrite Hnil in Hm. by apply elem_of_nil in Hm.
  - intros s [_ [[? _]|[_ ?]]]%Hlow; done.
Qed.

(** X12.  Every n-gram is a full window: for n ≥ 1 the strings built by
    the comprehension are exactly the joins of n consecutive words; no
    shorter window is produced at the end of the list. *)
Theorem ngrams_windows (n : nat) (words : list string) (s : string) :
  1 ≤ n →
  (s ∈ ngrams n words ↔
   ∃ pre window post,
     words = pre ++ window ++ post ∧ length window = n ∧ s = join " " window).
Proof.
  intros Hn. unfold ngrams. rewrite list_elem_of_fmap. split.
  - intros (i & -> & Hi%elem_of_seq).
    exists (take i words), (take n (drop i words)), (drop n (drop i words)).
    rewrite !take_drop. split; [done|]. split; [|done].
    rewrite length_take, length_drop. lia.
  - intros (pre & window & post & -> & Hlen & ->). exists (length pre). split.
    + by rewrite drop_app_length, <- Hlen, take_app_length.
    + apply elem_of_seq. rewrite !length_app. lia.
Qed.

Lemma ngrams_windows_witness :
  "deep learning" ∈ ngrams 2 ["know"; "deep"; "learning"; "well"]
  ∧ "well" ∉ ngrams 2 ["know"; "deep"; "learning"; "well"].
Proof.
  split.
  - apply (ngrams_windows 2 ["know"; "deep"; "learning"; "well"]); [lia|].
    by exists ["know"], ["deep"; "learning"], ["well"].
  - intros Hin. apply (ngrams_windows 2 ["know"; "deep"; "learning"; "well"]) in Hin
      as (pre & window & post & _ & Hlen & Hjoin); [|lia].
    destruct window as [|a [|b [|c window]]]; simpl in Hlen; try lia.
    assert (Hsp : " "%char ∈ chars "well").
    { rewrite Hjoin. simpl join. rewrite !chars_app. simpl.
      apply elem_of_app. right. by left. }
    simpl in Hsp. rewrite !elem_of_cons, elem_of_nil in Hsp.
    destruct Hsp as [?|[?|[?|[?|[]]]]]; discriminate.
Defined.

Lemma lower_AZ_is_alpha c : is_AZ c = true → is_alpha (lower_char c) = true.
Proof. by_cases_on_char c. Qed.

Lemma found_abbrev_letters text s :
  found_abbrev text s → forallb is_alpha (chars s) = true.
Proof.
  intros (pre & run & post & _ & Hrun & ->)%found_abbrev_upper_run.
  apply is_upper_run_spec in Hrun as (_ & HAZ & _).
  rewrite chars_lower. apply forallb_forall. intros c Hc%list_elem_of_In.
  apply list_elem_of_fmap in Hc as (d & -> & Hd).
  rewrite Forall_forall in HAZ. by apply lower_AZ_is_alpha, HAZ.
Qed.

Lemma join_has_space (window : list string) :
  2 ≤ length window → existsb (is_code 32) (chars (join " " window)) = true.
Proof.
  destruct window as [|a [|b window]]; simpl; [lia..|]. intros _.
  change (join " " (a :: b :: window)) with (a +:+ " " +:+ join " " (b :: window)).
  rewrite !chars_app, !existsb_app. simpl. by rewrite orb_true_r.
Qed.

Lemma found_phrase_has_space text s :
  found_phrase text s → existsb (is_code 32) (chars s) = true.
Proof.
  intros [Hs _]. unfold ngrams in Hs.
  apply elem_of_app in Hs as [Hs|Hs];
    apply list_elem_of_fmap in Hs as (i & -> & Hi%elem_of_seq);
    apply join_has_space; rewrite length_take, length_drop; lia.
Qed.

(** X13.  A term with a character that is not a letter, without a space
    and ending in a non-word character, can only come from the exact pass,
    and there the closing word boundary asks for a word character right
    after it.  This is the case of "c++" and "c#": they are extracted only
    where a letter, digit or underscore follows them directly. *)
Theorem symbol_terms_need_word_after (text : option string) (skill : string) :
  (forallb is_alpha (chars skill) = false →
   existsb (is_code 32) (chars skill) = false →
   word_before (last (chars skill)) = false →
   skill ∈ extract_skills text →
   ∃ t pre c post,
     text = Some t ∧ lower t = pre +:+ skill +:+ String c post ∧ is_word c = true)
  ∧ filter (λ s, word_before (last (chars s)) = false) all_skills
    = {[ "c++"; "c#" ]}.
Proof.
  split; [|by_evaluation].
  intros Hsym Hnosp Hlast Hin.
  destruct text as [t|]; [|by rewrite extract_skills_absent, elem_of_empty in Hin].
  apply elem_of_extract_skills in Hin as [_ [Hexact|[Habbr|Hphrase]]].
  - destruct Hexact as [_ (pre & w & rest & Ht & Hl)%re_search_occurs].
    apply lang_whole_word in Hl as (_ & Hw%lang_literal & Hb).
    apply (f_equal of_chars) in Hw. rewrite !of_chars_chars in Hw. subst w.
    assert (Hprev : word_before (prev_after (last (chars pre)) (chars skill)) = false).
    { unfold prev_after. destruct (last (chars skill)) as [d|] eqn:Hd; [done|].
      apply last_None in Hd. by rewrite Hd in Hsym. }
    unfold at_boundary in Hb. rewrite Hprev in Hb. simpl in Hb.
    destruct rest as [|c post]; [done|]. by exists t, pre, c, post.
  - apply found_abbrev_letters in Habbr. congruence.
  - apply found_phrase_has_space in Hphrase. congruence.
Qed.

Lemma symbol_terms_need_word_after_witness :
  "c++" ∈ extract_skills (Some "Modern C++11 code")
  ∧ ("c++" ∉ extract_skills (Some "C++ and C# developer"))
  ∧ ("c#" ∉ extract_skills (Some "C++ and C# developer"))
  ∧ ∃ t pre c post,
      Some "Modern C++11 code" = Some t
      ∧ lower t = pre +:+ "c++" +:+ String c post ∧ is_word c = true.
Proof.
  assert (Hin : "c++" ∈ extract_skills (Some "Modern C++11 code")).
  { apply elem_of_by_evaluation. by_evaluation. }
  split; [exact Hin|].
  split; [apply not_elem_of_by_evaluation; by_evaluation|].
  split; [apply not_elem_of_by_evaluation; by_evaluation|].
  exact (proj1 (symbol_terms_need_word_after (Some "Modern C++11 code") "c++")
           eq_refl eq_refl eq_refl Hin).
Defined.

(** ** The vocabulary *)

Lemma elem_of_foldl_union (x : string) (init : gset string) (l : list (gset string)) :
  x ∈ foldl (λ acc category, acc ∪ category) init l ↔
  x ∈ init ∨ ∃ category, category ∈ l ∧ x ∈ category.
Proof.
  revert init. induction l as [|c l IH]; intros init; simpl.
  - split; [by left|]. intros [?|(c & []%elem_of_nil & _)]; done.
  - rewrite IH, elem_of_union. setoid_rewrite elem_of_cons. split.
    + intros [[?|?]|(c' & ? & ?)]; [by left | right; exists c; auto | right; eauto].
    + intros [?|(c' & [->|?] & ?)]; [by left; left | by left; right | right; eauto].
Qed.

(** X14.  The flattened vocabulary is the union of the common skills and
    of all categories: a term is in [all_skills] exactly when it is a
    common skill or belongs to some category. *)
Theorem all_skills_flattened (s : string) :
  s ∈ all_skills ↔
  s ∈ common_tech_skills
  ∨ ∃ name category, skill_categories !! name = Some category ∧ s ∈ category.
Proof.
  with_strategy transparent [all_skills] unfold all_skills.
  rewrite elem_of_union, elem_of_foldl_union, elem_of_empty.
  split.
  - intros [[[]|(category & Hc & Hs)]|?]; [|by left].
    apply list_elem_of_fmap in Hc as ([name c] & -> & Hc%elem_of_map_to_list).
    right. by exists name, c.
  - intros [?|(name & category & Hc & Hs)]; [by right|].
    left. right. exists category. split; [|done].
    apply list_elem_of_fmap. exists (name, category). split; [done|].
    by apply elem_of_map_to_list.
Qed.

(** * The service *)

(** ** The document readers *)

Section ReaderProperties.
Context (splitext : string → string * string)
        (pdf_extract : string → outcome string)
        (docx_paragraphs : string → outcome (list string))
        (read_utf8 : string → outcome string)
        (read_latin1 : string → outcome string).

Lemma parse_docx_returns (fs : files) (file_path : string) :
  ∃ text, parse_docx docx_paragraphs fs file_path = Return text.
Proof.
  unfold parse_docx. destruct (open_read fs file_path) as [data|e]; [|by eexists].
  destruct (docx_paragraphs data); by eexists.
Qed.

Lemma parse_txt_returns (fs : files) (file_path : string) :
  ∃ text, parse_txt read_utf8 read_latin1 fs file_path = Return text.
Proof.
  unfold parse_txt. destruct (open_read fs file_path) as [data|e]; [|by eexists].
  destruct (read_utf8 data) as [text|[]]; try by eexists.
  destruct (read_latin1 data); by eexists.
Qed.

(** X15.  [parse_document] never raises: it returns a text for every
    path, whatever the readers do, and the text is empty when the file
    does not exist or when the lowercased extension is none of .pdf, .docx
    and .txt. *)
Theorem parse_document_never_raises (fs : files) (file_path : string) :
  (∃ text, parse_document splitext pdf_extract docx_paragraphs read_utf8
             read_latin1 fs file_path = Return text)
  ∧ (fs !! file_path = None →
     parse_document splitext pdf_extract docx_paragraphs read_utf8
       read_latin1 fs file_path = Return "")
  ∧ (lower (splitext file_path).2 ∉ [".pdf"; ".docx"; ".txt"] →
     parse_document splitext pdf_extract docx_paragraphs read_utf8
       read_latin1 fs file_path = Return "").
Proof.
  unfold parse_document. split; [|split].
  - destruct (if bool_decide (_ = ".pdf") then _ else _); by eexists.
  - intros Hnone. unfold parse_pdf, parse_docx, parse_txt, open_read.
    rewrite Hnone. by repeat case_bool_decide.
  - intros Hext. rewrite !bool_decide_false; [done|..];
      intros Heq; apply Hext; rewrite Heq; set_solver.
Qed.

(** X16.  [parse_docx] and [parse_txt] never raise.  [parse_pdf] turns a
    [PDFSyntaxError] into the empty text and lets every other exception of
    the extractor through; under [parse_document] that exception too
    becomes the empty text. *)
Theorem parse_pdf_errors (fs : files) (file_path data : string) (e : exc) :
  fs !! file_path = Some data →
  pdf_extract data = Raise e →
  (e = PDFSyntaxError → parse_pdf pdf_extract fs file_path = Return "")
  ∧ (e ≠ PDFSyntaxError → parse_pdf pdf_extract fs file_path = Raise e)
  ∧ (lower (splitext file_path).2 = ".pdf" →
     parse_document splitext pdf_extract docx_paragraphs read_utf8
       read_latin1 fs file_path = Return "")
  ∧ (∃ text, parse_docx docx_paragraphs fs file_path = Return text)
  ∧ (∃ text, parse_txt read_utf8 read_latin1 fs file_path = Return text).
Proof.
  intros Hdata Hraise.
  assert (Hpdf : parse_pdf pdf_extract fs file_path
                 = match e with PDFSyntaxError => Return "" | _ => Raise e end).
  { unfold parse_pdf, open_read. by rewrite Hdata, Hraise. }
  split; [by intros ->|]. split; [by destruct e|].
  split; [|split; [apply parse_docx_returns | apply parse_txt_returns]].
  intros Hext. unfold parse_document. rewrite Hext, bool_decide_true by done.
  rewrite Hpdf. by destruct e.
Qed.
End ReaderProperties.

Lemma parse_document_never_raises_witness :
  parse_document (λ p, (p, ".XLS")) Return (λ _, Return []) Return Return
    {[ "sheet.XLS" := "Python" ]} "sheet.XLS" = Return ""
  ∧ parse_document (λ p, (p, ".TXT")) Return (λ _, Return []) Return Return
    ∅ "gone.TXT" = Return "".
Proof.
  split.
  - apply (proj2 (proj2 (parse_document_never_raises (λ p, (p, ".XLS")) Return
             (λ _, Return []) Return Return {[ "sheet.XLS" := "Python" ]} "sheet.XLS"))).
    assert (He : lower ".XLS" = ".xls") by by_evaluation.
    cbn [snd]. rewrite He. intros Hin.
    rewrite !elem_of_cons, elem_of_nil in Hin.
    destruct Hin as [?|[?|[?|[]]]]; discriminate.
  - apply (proj1 (proj2 (parse_document_never_raises (λ p, (p, ".TXT")) Return
             (λ _, Return []) Return Return ∅ "gone.TXT"))). done.
Defined.

Lemma parse_pdf_errors_witness :
  parse_pdf (λ _, Raise (OtherError "PDFTextExtractionNotAllowed"))
    {[ "cv.PDF" := "%PDF" ]} "cv.PDF"
  = Raise (OtherError "PDFTextExtractionNotAllowed")
  ∧ parse_document (λ p, (p, ".PDF"))
      (λ _, Raise (OtherError "PDFTextExtractionNotAllowed"))
      (λ _, Return []) Return Return {[ "cv.PDF" := "%PDF" ]} "cv.PDF"
    = Return "".
Proof.
  destruct (parse_pdf_errors (λ p, (p, ".PDF"))
              (λ _, Raise (OtherError "PDFTextExtractionNotAllowed"))
              (λ _, Return []) Return Return {[ "cv.PDF" := "%PDF" ]}
              "cv.PDF" "%PDF" (OtherError "PDFTextExtractionNotAllowed"))
    as (_ & Hpdf & Hdoc & _); [done | done |].
  split; [by apply Hpdf | apply Hdoc; by_evaluation].
Defined.

(** ** The endpoint *)

Lemma temp_files_removed (fs : files) (p1 p2 c1 c2 : string) :
  fs !! p1 = None → (<[p1:=c1]> fs) !! p2 = None →
  p1 ≠ p2 ∧ fs !! p2 = None
  ∧ (<[p2:=c2]> (<[p1:=c1]> fs)) !! p1 = Some c1
  ∧ (<[p2:=c2]> (<[p1:=c1]> fs)) !! p2 = Some c2
  ∧ delete p1 (<[p2:=c2]> (<[p1:=c1]> fs)) !! p2 = Some c2
  ∧ delete p2 (delete p1 (<[p2:=c2]> (<[p1:=c1]> fs))) = fs.
Proof.
  intros H1 H2.
  assert (Hne : p1 ≠ p2).
  { intros ->. by rewrite lookup_insert_eq in H2. }
  assert (H2' : fs !! p2 = None) by by rewrite lookup_insert_ne in H2.
  split; [done|]. split; [done|].
  split; [by rewrite lookup_insert_ne, lookup_insert_eq|].
  split; [by rewrite lookup_insert_eq|].
  split; [by rewrite lookup_delete_ne, lookup_insert_eq|].
  rewrite (delete_insert_ne _ p1 p2) by exact Hne.
  rewrite (delete_insert_id _ p1) by exact H1. by apply delete_insert_id.
Qed.

Section EndpointProperties.
Context {A : Type} `{Scalar A} `{Round2 A}.
Context (splitext : string → string * string)
        (parse : files → string → outcome string)
        (mkstemp : files → string → string)
        (str_exc : exc → string).
(** A temporary file gets a name that does not exist yet. *)
Hypothesis mkstemp_fresh : ∀ fs suffix, fs !! mkstemp fs suffix = None.

Lemma analyze_try_result (fs : files) (p1 p2 c1 c2 : string) :
  fs !! p1 = None → (<[p1:=c1]> fs) !! p2 = None →
  let fs2 := <[p2:=c2]> (<[p1:=c1]> fs) in
  (∃ e, parse fs2 p1 = Raise e ∧ analyze_try (A:=A) parse fs2 p1 p2 = (Raise e, fs2))
  ∨ (∃ t1 e, parse fs2 p1 = Return t1 ∧ parse fs2 p2 = Raise e
             ∧ analyze_try (A:=A) parse fs2 p1 p2 = (Raise e, fs2))
  ∨ (∃ t1 t2, parse fs2 p1 = Return t1 ∧ parse fs2 p2 = Return t2
              ∧ (t1 = "" ∨ t2 = "")
              ∧ analyze_try (A:=A) parse fs2 p1 p2
                = (Return (Error 400 "Failed to parse one or both documents"), fs2))
  ∨ (∃ t1 t2, parse fs2 p1 = Return t1 ∧ parse fs2 p2 = Return t2
              ∧ t1 ≠ "" ∧ t2 ≠ ""
              ∧ analyze_try (A:=A) parse fs2 p1 p2
                = (Return (Json 200 (analyze t1 t2)), fs)).
Proof.
  intros H1 H2 fs2.
  destruct (temp_files_removed fs p1 p2 c1 c2 H1 H2) as (_ & _ & Hl1 & _ & Hl2 & Hdel).
  fold fs2 in Hl1, Hl2, Hdel. unfold analyze_try.
  destruct (parse fs2 p1) as [t1|e]; [|left; by exists e].
  destruct (parse fs2 p2) as [t2|e]; [|right; left; by exists t1, e].
  right. right.
  destruct (decide (t1 = "")) as [->|Hn1].
  { left. exists "", t2. by rewrite bool_decide_true by done; auto. }
  destruct (decide (t2 = "")) as [->|Hn2].
  { left. exists t1, "". rewrite (bool_decide_true ("" = "")), orb_true_r by done.
    auto. }
  right. exists t1, t2. rewrite !bool_decide_false by done. cbn [orb].
  unfold unlink. by rewrite Hl1, Hl2, Hdel.
Qed.

(** X17.  A response produced by the endpoint with a JSON body has status
    200, carries the analysis of two non-empty texts, and leaves the file
    system as it was: both temporary files are removed.  The same holds of
    the file system after a 500 response. *)
Theorem analyze_endpoint_cleans_up (request_files : gmap string upload)
    (fs fs' : files) (r : response A) :
  analyze_endpoint (A:=A) splitext parse mkstemp str_exc request_files fs = (r, fs') →
  (∀ status body, r = Json status body →
     status = 200 ∧ fs' = fs
     ∧ ∃ resume_text job_desc_text,
         resume_text ≠ "" ∧ job_desc_text ≠ ""
         ∧ body = analyze resume_text job_desc_text)
  ∧ (∀ message, r = Error 500 message → fs' = fs).
Proof.
  unfold analyze_endpoint.
  destruct (request_files !! "resume") as [resume_file|];
    [|intros [= <- <-]; split; intros; discriminate].
  destruct (request_files !! "job_description") as [job_desc_file|];
    [|intros [= <- <-]; split; intros; discriminate].
  destruct (_ || _); [intros [= <- <-]; split; intros; discriminate|].
  cbn zeta.
  set (p1 := mkstemp fs _). set (c1 := content resume_file).
  set (p2 := mkstemp (<[p1:=c1]> fs) _). set (c2 := content job_desc_file).
  pose proof (mkstemp_fresh fs (splitext (filename resume_file)).2) as H1.
  pose proof (mkstemp_fresh (<[p1:=c1]> fs) (splitext (filename job_desc_file)).2) as H2.
  fold p1 in H1. fold p2 in H2.
  destruct (temp_files_removed fs p1 p2 c1 c2 H1 H2) as (_ & _ & Hl1 & _ & Hl2 & Hdel).
  assert (Hcleanup : unlink_if_exists
            (unlink_if_exists (<[p2:=c2]> (<[p1:=c1]> fs)) p1) p2 = fs).
  { unfold unlink_if_exists. by rewrite Hl1, Hl2. }
  destruct (analyze_try_result fs p1 p2 c1 c2 H1 H2)
    as [(e & _ & ->)|[(t1 & e & _ & _ & ->)|[(t1 & t2 & _ & _ & _ & ->)
       |(t1 & t2 & _ & _ & Hn1 & Hn2 & ->)]]].
  - rewrite Hcleanup. intros [= <- <-]. split; [intros; discriminate | done].
  - rewrite Hcleanup. intros [= <- <-]. split; [intros; discriminate | done].
  - intros [= <- <-]. split; intros; discriminate.
  - intros [= <- <-]. split; [|intros; discriminate].
    intros status body [= <- <-]. split; [done|]. split; [done|]. by exists t1, t2.
Qed.

(** X18.  When both files are present and named but one of them yields no
    text, the endpoint answers 400 and returns without removing the two
    temporary files it has just written: both are still on disk. *)
Theorem analyze_endpoint_leaves_temp_files (request_files : gmap string upload)
    (fs : files) (resume_file job_desc_file : upload) (t1 t2 : string) :
  request_files !! "resume" = Some resume_file →
  request_files !! "job_description" = Some job_desc_file →
  filename resume_file ≠ "" → filename job_desc_file ≠ "" →
  let resume_path := mkstemp fs (splitext (filename resume_file)).2 in
  let fs1 := <[resume_path := content resume_file]> fs in
  let job_desc_path := mkstemp fs1 (splitext (filename job_desc_file)).2 in
  let fs2 := <[job_desc_path := content job_desc_file]> fs1 in
  parse fs2 resume_path = Return t1 → parse fs2 job_desc_path = Return t2 →
  t1 = "" ∨ t2 = "" →
  analyze_endpoint (A:=A) splitext parse mkstemp str_exc request_files fs
  = (Error 400 "Failed to parse one or both documents", fs2)
  ∧ fs !! resume_path = None ∧ fs !! job_desc_path = None
  ∧ fs2 !! resume_path = Some (content resume_file)
  ∧ fs2 !! job_desc_path = Some (content job_desc_file).
Proof.
  intros Hr Hj Hfr Hfj p1 fs1 p2 fs2 Ht1 Ht2 Hempty.
  pose proof (mkstemp_fresh fs (splitext (filename resume_file)).2) as H1.
  pose proof (mkstemp_fresh fs1 (splitext (filename job_desc_file)).2) as H2.
  fold p1 in H1. fold p2 in H2.
  destruct (temp_files_removed fs p1 p2 (content resume_file)
              (content job_desc_file) H1 H2) as (_ & H2' & Hl1 & Hl2 & _ & _).
  split; [|done].
  unfold analyze_endpoint. rewrite Hr, Hj, !bool_decide_false by done.
  cbn [orb]. cbn zeta. fold p1. fold fs1. fold p2. fold fs2.
  unfold analyze_try. rewrite Ht1, Ht2.
  destruct Hempty as [-> | ->].
  - by rewrite bool_decide_true by done.
  - by rewrite (bool_decide_true ("" = "")), orb_true_r by done.
Qed.
End EndpointProperties.

(** A name outside the file system, as [tempfile] would pick one. *)
Lemma fresh_name_is_fresh (fs : files) (suffix : string) :
  fs !! fresh (dom fs) = None.
Proof. apply not_elem_of_dom, is_fresh. Qed.

Lemma analyze_endpoint_cleans_up_witness :
  let request_files : gmap string upload :=
    {[ "resume" := {| filename := "cv.txt"; content := "Python and SQL" |};
       "job_description" := {| filename := "job.txt"; content := "SQL wanted" |} ]} in
  let result :=
    analyze_endpoint (A:=R) (λ p, (p, ".txt")) open_read (λ fs _, fresh (dom fs))
      (λ _, "error") request_files ∅ in
  (∀ status body, result.1 = Json status body →
     status = 200 ∧ result.2 = ∅
     ∧ ∃ resume_text job_desc_text,
         resume_text ≠ "" ∧ job_desc_text ≠ ""
         ∧ body = analyze resume_text job_desc_text)
  ∧ (∀ message, result.1 = Error 500 message → result.2 = ∅).
Proof.
  intros request_files result.
  apply (analyze_endpoint_cleans_up (A:=R) (λ p, (p, ".txt")) open_read
           (λ fs _, fresh (dom fs)) (λ _, "error") fresh_name_is_fresh
           request_files ∅ result.2 result.1).
  apply surjective_pairing.
Defined.

Lemma analyze_endpoint_leaves_temp_files_witness :
  let resume_file := {| filename := "cv.pdf"; content := "scan" |} in
  let job_desc_file := {| filename := "job.txt"; content := "SQL wanted" |} in
  let request_files : gmap string upload :=
    {[ "resume" := resume_file; "job_description" := job_desc_file ]} in
  let resume_path := fresh (dom (∅ : files)) in
  let fs1 : files := <[resume_path := "scan"]> ∅ in
  let job_desc_path := fresh (dom fs1) in
  let fs2 : files := <[job_desc_path := "SQL wanted"]> fs1 in
  analyze_endpoint (A:=R) (λ p, (p, ".txt")) (λ _ _, Return "")
    (λ fs _, fresh (dom fs)) (λ _, "error") request_files ∅
  = (Error 400 "Failed to parse one or both documents", fs2)
  ∧ (∅ : files) !! resume_path = None ∧ (∅ : files) !! job_desc_path = None
  ∧ fs2 !! resume_path = Some "scan"
  ∧ fs2 !! job_desc_path = Some "SQL wanted".
Proof.
  intros resume_file job_desc_file request_files resume_path fs1 job_desc_path fs2.
  apply (analyze_endpoint_leaves_temp_files (A:=R) (λ p, (p, ".txt"))
           (λ _ _, Return "") (λ fs _, fresh (dom fs)) (λ _, "error")
           fresh_name_is_fresh request_files ∅ resume_file job_desc_file "" "");
    try done.
  by left.
Defined.
